(** * extract_tankopedia: a shallow embedding of [src/extract_tankopedia.py]

    The script reads a game client's unpacked vehicle definitions and
    localization strings and merges them into two JSON catalogs, the
    tankopedia and the map names.

    The file has two parts.  The first holds the definitions: the
    fragment of Python's builtins the script calls ([Py]), the fragment of
    the [re] module ([Re]), and the functions of the script under the
    names they have in the source, in the order of their dependencies.
    - A str is a [string], an int is a [Z], a dict is an association list
      in insertion order.
    - An exception is a value of [result]; [sys.exit] is the exception
      [SystemExit].
    - The vehicle dicts are objects: [convert_tank_names] works on a store
      of dicts and a list of references into it.
    - What the script prints or logs as an error is returned as a list of
      events.
    The second part holds the properties. *)

From Stdlib Require Import ZArith List String Ascii Bool Lia.
From Stdlib Require Import Sorted Permutation DecimalString DecimalZ.
Import ListNotations.

Local Open Scope string_scope.
Local Open Scope Z_scope.

(** ** Python builtins *)

Module Py.

(** Exceptions the script can meet.  [SystemExit] is what [sys.exit]
    raises; the others are the builtin error classes. *)
Inductive exn : Type :=
| AssertionError
| KeyError
| IndexError
| TypeError
| AttributeError
| ValueError
| OSError
| SystemExit (code : Z).

Inductive result (A : Type) : Type :=
| Ok (a : A)
| Raise (e : exn).
Arguments Ok {A} a.
Arguments Raise {A} e.

Definition rbind {A B} (r : result A) (k : A -> result B) : result B :=
  match r with
  | Ok a => k a
  | Raise e => Raise e
  end.

(** *** dict: insertion-ordered, one binding per key *)

Definition dict (V : Type) : Type := list (string * V).

Section Dict.
Context {V : Type}.

(** [d.get(k)] / [k in d] / [d[k]] *)
Fixpoint dict_get (k : string) (d : dict V) : option V :=
  match d with
  | [] => None
  | (k', v) :: d' => if String.eqb k k' then Some v else dict_get k d'
  end.

Definition dict_mem (k : string) (d : dict V) : bool :=
  match dict_get k d with Some _ => true | None => false end.

Definition getitem (k : string) (d : dict V) : result V :=
  match dict_get k d with Some v => Ok v | None => Raise KeyError end.

(** [d[k] = v]: an existing key keeps its position, a new key goes last. *)
Fixpoint dict_set (k : string) (v : V) (d : dict V) : dict V :=
  match d with
  | [] => [(k, v)]
  | (k', v') :: d' =>
      if String.eqb k k' then (k, v) :: d' else (k', v') :: dict_set k v d'
  end.

(** [d.pop(k, None)] with the popped value discarded. *)
Fixpoint dict_pop (k : string) (d : dict V) : dict V :=
  match d with
  | [] => []
  | (k', v') :: d' =>
      if String.eqb k k' then d' else (k', v') :: dict_pop k d'
  end.

(** [d.update(other)]: [d[k] = v] for every item of [other], in order. *)
Definition dict_update (d other : dict V) : dict V :=
  fold_left (fun acc kv => dict_set (fst kv) (snd kv) acc) other d.

Definition dict_keys (d : dict V) : list string := map fst d.

Definition len (d : dict V) : Z := Z.of_nat (List.length d).

(** The representation invariant of a dict: no key occurs twice. *)
Definition dict_wf (d : dict V) : Prop := NoDup (dict_keys d).

End Dict.

(** *** str *)

(** [s.split(sep)] for a one-character separator. *)
Fixpoint str_split (sep : ascii) (s : string) : list string :=
  match s with
  | EmptyString => [EmptyString]
  | String c s' =>
      if Ascii.eqb c sep then EmptyString :: str_split sep s'
      else match str_split sep s' with
           | [] => [String c EmptyString]
           | h :: t => String c h :: t
           end
  end.

(** [l[i]] on a list. *)
Definition index {A} (l : list A) (i : nat) : result A :=
  match nth_error l i with Some x => Ok x | None => Raise IndexError end.

(** [str(n)] for an int: the decimal numeral, ["-"] in front when negative.
    (CPython 3.10.7 and later raise ValueError for an int of more than
    [sys.get_int_max_str_digits()] digits, 4300 unless configured; the
    limit is not part of this function, see [int_max_str_digits].) *)
Definition str_of_int (z : Z) : string := NilZero.string_of_int (Z.to_int z).

(** [int(s)] for a str of ASCII characters: surrounding whitespace (tab,
    line feed, vertical tab, form feed, carriage return, space) is
    dropped, one sign is allowed, and single underscores may separate
    digits.  [int()] also reads the decimal digits and the spaces of
    other scripts; on a text with such a character this function raises
    where [int()] may return, so a property that rests on its raising is
    stated for ASCII texts ([is_ascii]). *)
Definition is_space (c : ascii) : bool :=
  let n := N_of_ascii c in
  (((9 <=? n) && (n <=? 13)) || (n =? 32))%N.

Definition is_digit (c : ascii) : bool :=
  let n := N_of_ascii c in ((48 <=? n) && (n <=? 57))%N.

Fixpoint lstrip (s : string) : string :=
  match s with
  | EmptyString => EmptyString
  | String c s' => if is_space c then lstrip s' else s
  end.

Fixpoint rstrip (s : string) : string :=
  match s with
  | EmptyString => EmptyString
  | String c s' =>
      match rstrip s' with
      | EmptyString => if is_space c then EmptyString else String c EmptyString
      | r => String c r
      end
  end.

(** The digits of a numeral body; [prev] tells whether the previous
    character was a digit (an underscore needs a digit on both sides). *)
Fixpoint digits_of (prev : bool) (s : string) : option string :=
  match s with
  | EmptyString => if prev then Some EmptyString else None
  | String c s' =>
      if Ascii.eqb c "_" then
        if prev then digits_of false s' else None
      else if is_digit c then option_map (String c) (digits_of true s')
      else None
  end.

Definition int_of_str (s : string) : result Z :=
  let t := rstrip (lstrip s) in
  let '(neg, body) :=
    match t with
    | String c r =>
        if Ascii.eqb c "-" then (true, r)
        else if Ascii.eqb c "+" then (false, r)
        else (false, t)
    | EmptyString => (false, t)
    end in
  match digits_of false body with
  | None => Raise ValueError
  | Some ds =>
      match NilEmpty.uint_of_string ds with
      | None => Raise ValueError
      | Some u => Ok (if neg then - Z.of_uint u else Z.of_uint u)
      end
  end.

(** A text of ASCII characters only. *)
Definition is_ascii (s : string) : bool :=
  forallb (fun c => (N_of_ascii c <? 128)%N) (list_ascii_of_string s).

(** The default of [sys.get_int_max_str_digits()], and the ints whose
    decimal numeral has no more digits than that. *)
Definition int_max_str_digits : Z := 4300.

Definition within_str_limit (z : Z) : bool :=
  Z.abs z <? 10 ^ int_max_str_digits.

(** [[f(x) for x in l]] where [f] may raise. *)
Fixpoint mapM {A B} (f : A -> result B) (l : list A) : result (list B) :=
  match l with
  | [] => Ok []
  | x :: l' => rbind (f x) (fun y => rbind (mapM f l') (fun ys => Ok (y :: ys)))
  end.

(** *** sorted: a stable sort (insertion sort; every stable sort returns
    the same list) *)
Section Sorted.
Context {A : Type} (le : A -> A -> bool).

Fixpoint insert (x : A) (l : list A) : list A :=
  match l with
  | [] => [x]
  | y :: l' => if le x y then x :: l else y :: insert x l'
  end.

Definition sorted (l : list A) : list A := fold_right insert [] l.

End Sorted.

(** [sorted(l)] on a list of str: code-point order. *)
Definition sorted_str (l : list string) : list string := sorted String.leb l.

(** [sorted(l, key=int)] on a list of str: every key is computed first. *)
Definition sorted_key_int (l : list string) : result (list string) :=
  rbind (mapM int_of_str l) (fun zs =>
  Ok (map snd (sorted (fun a b => Z.leb (fst a) (fst b)) (combine zs l)))).

(** [os.path.join] (posixpath). *)
Definition starts_with_slash (s : string) : bool :=
  match s with String c _ => Ascii.eqb c "/" | EmptyString => false end.

Fixpoint ends_with_slash (s : string) : bool :=
  match s with
  | EmptyString => false
  | String c EmptyString => Ascii.eqb c "/"
  | String _ s' => ends_with_slash s'
  end.

Definition path_join2 (a b : string) : string :=
  if starts_with_slash b then b
  else if (String.eqb a "" || ends_with_slash a)%bool then (a ++ b)%string
  else (a ++ "/" ++ b)%string.

Definition path_join (a : string) (ps : list string) : string :=
  fold_left path_join2 ps a.

(** The lines a text file yields when iterated: each keeps its newline,
    the last one may lack it. *)
Fixpoint file_lines (s : string) : list string :=
  match s with
  | EmptyString => []
  | String c s' =>
      if Ascii.eqb c "010" then String c EmptyString :: file_lines s'
      else match file_lines s' with
           | [] => [String c EmptyString]
           | h :: t => String c h :: t
           end
  end.

(** *** Values

    What [xmltodict.parse] and [json.loads] return and what the vehicle
    dicts hold: None, bool, int, str, and nested dicts and lists.  (A
    float, which [json.loads] can return too, would only be carried from
    the old catalog to the new one.) *)
#[local] Set Warnings "-register-all".
Inductive pyval : Type :=
| PNone
| PBool (b : bool)
| PInt (z : Z)
| PStr (s : string)
| PDict (items : list (string * pyval))
| PList (elems : list pyval).

(** [int(v)] *)
Definition int_of (v : pyval) : result Z :=
  match v with
  | PInt z => Ok z
  | PBool b => Ok (if b then 1 else 0)
  | PStr s => int_of_str s
  | PNone | PDict _ | PList _ => Raise TypeError
  end.

(** [v[k]] for a str key [k] *)
Definition subscript (v : pyval) (k : string) : result pyval :=
  match v with
  | PDict items => getitem k items
  | _ => Raise TypeError
  end.

(** [v.keys()] *)
Definition keys_of (v : pyval) : result (list string) :=
  match v with
  | PDict items => Ok (dict_keys items)
  | _ => Raise AttributeError
  end.

(** [v.split(sep)] *)
Definition split_of (v : pyval) (sep : ascii) : result (list string) :=
  match v with
  | PStr s => Ok (str_split sep s)
  | _ => Raise AttributeError
  end.

(** [v in d] and [d[v]] for a dict [d] with str keys: a dict or a list has
    no hash, the other values are looked up (and only a str can be found). *)
Definition contains {V} (d : dict V) (v : pyval) : result bool :=
  match v with
  | PStr s => Ok (dict_mem s d)
  | PDict _ | PList _ => Raise TypeError
  | _ => Ok false
  end.

Definition lookup {V} (d : dict V) (v : pyval) : result V :=
  match v with
  | PStr s => getitem s d
  | PDict _ | PList _ => Raise TypeError
  | _ => Raise KeyError
  end.

(** A value whose text [str()] and an f-string always produce: None, a
    bool, a str, or an int within the digit limit.  (The text of a dict
    or a list is made from the texts of its members, and making it can
    fail on an int among them or on their depth.)  A plain record is a
    dict of such values. *)
Definition plain_value (v : pyval) : bool :=
  match v with
  | PNone | PBool _ | PStr _ => true
  | PInt z => within_str_limit z
  | PDict _ | PList _ => false
  end.

Definition plain_record (d : dict pyval) : bool :=
  forallb (fun kv => plain_value (snd kv)) d.

End Py.

Import Py.

(** ** The fragment of the [re] module the script uses

    A pattern is a sequence of items: one character of a class, a lazy or
    greedy [+] over a class, the anchors, and group parentheses.  The
    matcher backtracks the way [re] does (a lazy [+] tries the shortest
    run first, a greedy one the longest). *)

Module Re.

Inductive item : Type :=
| One (cls : ascii -> bool)
| PlusLazy (cls : ascii -> bool)
| PlusGreedy (cls : ascii -> bool)
| Bol
| Eol
| GOpen (n : nat)
| GClose (n : nat).

Definition regex : Type := list item.

Definition newline : ascii := "010".
Definition dquote : ascii := "034".

(** [.] matches anything but a newline. *)
Definition dot (a : ascii) : bool := negb (Ascii.eqb a newline).

Definition chr (c : ascii) : item := One (Ascii.eqb c).

Fixpoint lit (s : string) : regex :=
  match s with
  | EmptyString => []
  | String c s' => chr c :: lit s'
  end.

(** Where the groups opened and closed, as offsets into the subject. *)
Record captures : Type := {
  starts : list (nat * nat);
  ends : list (nat * nat)
}.

Definition no_captures : captures := {| starts := []; ends := [] |}.

Definition open_group (n pos : nat) (c : captures) : captures :=
  {| starts := (n, pos) :: starts c; ends := ends c |}.

Definition close_group (n pos : nat) (c : captures) : captures :=
  {| starts := starts c; ends := (n, pos) :: ends c |}.

(** [$] matches at the end of the subject and before a final newline. *)
Definition at_end (s : string) : bool :=
  match s with
  | EmptyString => true
  | String a EmptyString => Ascii.eqb a newline
  | _ => false
  end.

(** [run r pos s caps]: match [r] against [s], the rest of the subject
    from offset [pos] on. *)
Fixpoint run (r : regex) (pos : nat) (s : string) (caps : captures)
  : option captures :=
  match r with
  | [] => Some caps
  | One cls :: r' =>
      match s with
      | String a s' => if cls a then run r' (S pos) s' caps else None
      | EmptyString => None
      end
  | Bol :: r' => if Nat.eqb pos 0 then run r' pos s caps else None
  | Eol :: r' => if at_end s then run r' pos s caps else None
  | GOpen n :: r' => run r' pos s (open_group n pos caps)
  | GClose n :: r' => run r' pos s (close_group n pos caps)
  | PlusLazy cls :: r' =>
      (fix more (pos : nat) (s : string) {struct s} : option captures :=
         match s with
         | EmptyString => None
         | String a s' =>
             if cls a then
               match run r' (S pos) s' caps with
               | Some c => Some c
               | None => more (S pos) s'
               end
             else None
         end) pos s
  | PlusGreedy cls :: r' =>
      (fix more (pos : nat) (s : string) {struct s} : option captures :=
         match s with
         | EmptyString => None
         | String a s' =>
             if cls a then
               match more (S pos) s' with
               | Some c => Some c
               | None => run r' (S pos) s' caps
               end
             else None
         end) pos s
  end.

(** A match object: the subject and the group offsets. *)
Record match_obj : Type := { subject : string; groups : captures }.

(** [p.match(s)]: the pattern must match at offset 0. *)
Definition re_match (p : regex) (s : string) : option match_obj :=
  match run p 0 s no_captures with
  | Some c => Some {| subject := s; groups := c |}
  | None => None
  end.

Fixpoint assoc (n : nat) (l : list (nat * nat)) : nat :=
  match l with
  | [] => 0%nat
  | (k, v) :: l' => if Nat.eqb n k then v else assoc n l'
  end.

(** [m.group(n)] *)
Definition group (m : match_obj) (n : nat) : string :=
  let b := assoc n (starts (groups m)) in
  let e := assoc n (ends (groups m)) in
  substring b (e - b) (subject m).

End Re.

Import Re.

(** ** The tables of [blitzutils.WG]

    [wg.NATION], [wg.NATION_ID] and [wg.TANK_TYPE] are class attributes of
    [blitzutils.WG]; the script only reads them, so they are carried as a
    value.  The module-level variable [wg] is [None] until [main] assigns
    it, hence the [option]. *)
Record WG : Type := {
  NATION : list string;
  NATION_ID : dict Z;
  TANK_TYPE : list string
}.

(** ** get_tank_id (source lines 224-226) *)
Definition get_tank_id (wg : option WG) (nation : string) (tank_id : Z)
  : result Z :=
  match wg with
  | None => Raise AssertionError
  | Some w =>
      rbind (getitem nation (NATION_ID w)) (fun nation_id =>
      Ok (Z.shiftl tank_id 8 + Z.shiftl nation_id 4 + 1))
  end.

(** The formula the documentation gives for the same number. *)
Definition encode_id_formula (nation_index raw_id : Z) : Z :=
  Z.lor (Z.lor (Z.shiftl raw_id 8) (Z.shiftl nation_index 4)) 1.

Declare Scope result_scope.
Delimit Scope result_scope with R.
Notation "x <- c1 ;; c2" := (rbind c1 (fun x => c2))
  (at level 61, c1 at next level, right associativity) : result_scope.

(** ** get_tank_type (source lines 229-235) *)
Fixpoint first_type (tags : list string) (types : list string)
  : result pyval :=
  match types with
  | [] => Ok PNone
  | t_type :: rest =>
      (t0 <- index tags 0 ;;
       if String.eqb t0 t_type then Ok (PStr t_type)
       else first_type tags rest)%R
  end.

Definition get_tank_type (wg : option WG) (tagstr : pyval) : result pyval :=
  match wg with
  | None => Raise AssertionError
  | Some w => (tags <- split_of tagstr " " ;; first_type tags (TANK_TYPE w))%R
  end.

(** ** Diagnostics

    What the script prints or hands to [bu.error]; [bu.debug] and
    [bu.verbose_std] lines are not recorded. *)
Inductive event : Type :=
| Printed (text : string)
| Error (e : exn)
| ErrorCouldNotProcess (tank : dict pyval)
| ErrorReadingFile (file : string) (e : exn).

(** ** Files

    [open_read] is [aiofiles.open(path)] followed by reading the whole
    text: the outer result is the open, the inner one the read. *)
Record filesystem : Type := {
  isdir : string -> bool;
  isfile : string -> bool;
  open_read : string -> result (result string)
}.

Definition BLITZAPP_STRINGS : string := "Data/Strings/en.yaml".
Definition BLITZAPP_VEHICLES_DIR : string := "Data/XML/item_defs/vehicles/".
Definition BLITZAPP_VEHICLE_FILE : string := "list.xml".

(** ** The vehicle dicts live in a store

    [extract_tanks] builds dict objects and [convert_tank_names] changes
    them in place, so a vehicle list is a list of references. *)
Definition loc : Type := nat.
Definition store : Type := loc -> dict pyval.

Definition store_set (l : loc) (d : dict pyval) (h : store) : store :=
  fun l' => if Nat.eqb l' l then d else h l'.

(** [for k in keys: acc[k] = d[k]] *)
Fixpoint copy_items {V} (d : dict V) (keys : list string) (acc : dict V)
  : result (dict V) :=
  match keys with
  | [] => Ok acc
  | k :: rest => (v <- getitem k d ;; copy_items d rest (dict_set k v acc))%R
  end.

Section Program.

(** Three library behaviours are left open: the Unicode class behind
    [\w], the text [str()] gives for a nested dict or list, and the XML
    parser. *)
Variable unicode_word : ascii -> bool.
Variable repr : pyval -> string.
Variable xmltodict_parse : string -> result pyval.

(** [str(v)] *)
Definition str_of (v : pyval) : string :=
  match v with
  | PNone => "None"
  | PBool true => "True"
  | PBool false => "False"
  | PInt z => str_of_int z
  | PStr s => s
  | PDict _ | PList _ => repr v
  end.

(** ** extract_tanks (source lines 111-139) *)

Definition is_dict (v : pyval) : bool :=
  match v with PDict _ => true | _ => false end.

(** The body of the loop over the entries, lines 127-134. *)
Definition tank_of_xml (wg : option WG) (nation : string) (tank_xml : pyval)
  : result (dict pyval) :=
  (price <- subscript tank_xml "price" ;;
   let tank := dict_set "is_premium" (PBool (is_dict price)) [] in
   let tank := dict_set "nation" (PStr nation) tank in
   id <- subscript tank_xml "id" ;;
   n <- int_of id ;;
   tank_id <- get_tank_id wg nation n ;;
   let tank := dict_set "tank_id" (PInt tank_id) tank in
   level <- subscript tank_xml "level" ;;
   tier <- int_of level ;;
   let tank := dict_set "tier" (PInt tier) tank in
   tags <- subscript tank_xml "tags" ;;
   type <- get_tank_type wg tags ;;
   let tank := dict_set "type" type tank in
   userString <- subscript tank_xml "userString" ;;
   Ok (dict_set "userStr" userString tank))%R.

Fixpoint extract_loop (wg : option WG) (nation : string) (tankList : pyval)
    (keys : list string) (tanks : list (dict pyval))
  : result (list (dict pyval)) :=
  match keys with
  | [] => Ok tanks
  | data :: rest =>
      (root <- subscript tankList "root" ;;
       tank_xml <- subscript root data ;;
       tank <- tank_of_xml wg nation tank_xml ;;
       extract_loop wg nation tankList rest (tanks ++ [tank])%list)%R
  end.

(** The result is [None] (Python's None), or the list of vehicle dicts. *)
Definition extract_tanks (wg : option WG) (fs : filesystem)
    (blitz_app_base nation : string)
  : result (option (list (dict pyval))) * list event :=
  let blitz_app_base :=
    if isdir fs (path_join blitz_app_base ["assets"])
    then path_join blitz_app_base ["assets"]
    else blitz_app_base in
  let list_xml_file :=
    path_join blitz_app_base
      [BLITZAPP_VEHICLES_DIR; nation; BLITZAPP_VEHICLE_FILE] in
  if negb (isfile fs list_xml_file) then
    (Ok None, [Printed ("ERROR: cannot open " ++ list_xml_file)])
  else
    match open_read fs list_xml_file with
    | Raise e => (Raise e, [])
    | Ok f =>
        match (content <- f ;;
               tankList <- xmltodict_parse content ;;
               root <- subscript tankList "root" ;;
               keys <- keys_of root ;;
               extract_loop wg nation tankList keys [])%R with
        | Ok tanks => (Ok (Some tanks), [])
        | Raise err => (Raise (SystemExit 2), [Error err])
        end
    end.

(** ** read_user_strs (source lines 141-165) *)

Definition p_tank : regex :=
  ([Bol; chr dquote; GOpen 1; chr "#"; PlusLazy unicode_word]
   ++ lit "_vehicles:"
   ++ [PlusLazy dot; GClose 1; chr dquote; chr ":"; chr " "; chr dquote;
       GOpen 2; PlusGreedy dot; GClose 2; chr dquote; Eol])%list.

Definition p_map : regex :=
  ([Bol; chr dquote] ++ lit "#maps:"
   ++ [GOpen 1; PlusLazy dot; GClose 1; chr ":"; PlusLazy dot;
       chr ":"; chr " "; chr dquote;
       GOpen 2; PlusLazy dot; GClose 2; chr dquote; Eol])%list.

(** The loop over the lines, lines 152-159. *)
Fixpoint read_lines (lines : list string) (tank_strs map_strs : dict string)
  : dict string * dict string :=
  match lines with
  | [] => (tank_strs, map_strs)
  | l :: rest =>
      let tank_strs :=
        match re_match p_tank l with
        | Some m => dict_set (group m 1) (group m 2) tank_strs
        | None => tank_strs
        end in
      let map_strs :=
        match re_match p_map l with
        | Some m =>
            if negb (String.eqb (group m 2) "Macragge")
            then dict_set (group m 1) (group m 2) map_strs
            else map_strs
        | None => map_strs
        end in
      read_lines rest tank_strs map_strs
  end.

Definition read_user_strs (fs : filesystem) (blitz_app_base : string)
  : result (dict string * dict string) * list event :=
  let filename := path_join blitz_app_base [BLITZAPP_STRINGS] in
  match (f <- open_read fs filename ;; content <- f ;; Ok content)%R with
  | Ok content => (Ok (read_lines (file_lines content) [] []), [])
  | Raise err => (Raise (SystemExit 1), [Error err])
  end.

(** ** convert_tank_names (source lines 167-221) *)

(** What the loop over the vehicles reads and writes: the store of the
    vehicle dicts and the local [tankopedia]. *)
Record cstate : Type := {
  heap : store;
  tankopedia : dict (dict pyval)
}.

Definition M (A : Type) : Type := cstate -> result A * cstate.

Definition ret {A} (a : A) : M A := fun st => (Ok a, st).

Definition bind {A B} (m : M A) (k : A -> M B) : M B :=
  fun st =>
    match m st with
    | (Ok a, st') => k a st'
    | (Raise e, st') => (Raise e, st')
    end.

Definition lift {A} (r : result A) : M A := fun st => (r, st).

Declare Scope conv_scope.
Delimit Scope conv_scope with C.
Notation "x <- c1 ;; c2" := (bind c1 (fun x => c2))
  (at level 61, c1 at next level, right associativity) : conv_scope.
Notation "c1 ;; c2" := (bind c1 (fun _ => c2))
  (at level 61, right associativity) : conv_scope.

(** [tank[k]], [tank[k] = v], [tank.pop(k, None)], [tank.keys()] on the
    dict a reference points to, and [tankopedia[k] = v]. *)
Definition tank_getitem (tank : loc) (k : string) : M pyval :=
  fun st => (getitem k (heap st tank), st).

Definition tank_setitem (tank : loc) (k : string) (v : pyval) : M unit :=
  fun st =>
    (Ok tt, {| heap := store_set tank (dict_set k v (heap st tank)) (heap st);
               tankopedia := tankopedia st |}).

Definition tank_pop (tank : loc) (k : string) : M unit :=
  fun st =>
    (Ok tt, {| heap := store_set tank (dict_pop k (heap st tank)) (heap st);
               tankopedia := tankopedia st |}).

Definition tank_keys (tank : loc) : M (list string) :=
  fun st => (Ok (dict_keys (heap st tank)), st).

Definition tank_copy (tank : loc) (keys : list string) : M (dict pyval) :=
  fun st => (copy_items (heap st tank) keys [], st).

Definition tankopedia_setitem (k : string) (v : dict pyval) : M unit :=
  fun st =>
    (Ok tt, {| heap := heap st; tankopedia := dict_set k v (tankopedia st) |}).

(** The body of the inner [try], lines 179-188.  The [bu.debug] line
    179 is left out, and with it the formatting of the vehicle dict, which
    raises only beyond the limits [plain_record] states. *)
Definition try_body (tank_strs : dict string) (tank : loc) : M unit :=
  (userStr <- tank_getitem tank "userStr" ;;
   known <- lift (contains tank_strs userStr) ;;
   (if known : bool then
      userStr <- tank_getitem tank "userStr" ;;
      text <- lift (lookup tank_strs userStr) ;;
      tank_setitem tank "name" (PStr text)
    else
      userStr <- tank_getitem tank "userStr" ;;
      parts <- lift (split_of userStr ":") ;;
      part <- lift (index parts 1) ;;
      tank_setitem tank "name" (PStr part)) ;;
   tank_pop tank "userStr" ;;
   keys <- tank_keys tank ;;
   tank_tmp <- tank_copy tank (sorted_str keys) ;;
   tank_id <- tank_getitem tank "tank_id" ;;
   tankopedia_setitem (str_of tank_id) tank_tmp)%C.

(** One turn of the loop: the bare [except] catches whatever the body
    raised and reports the vehicle.  The report carries the dict itself;
    the text line 190 formats it to is not computed (see [plain_record]
    for when the formatting cannot raise). *)
Definition convert_one (tank_strs : dict string) (tank : loc) (st : cstate)
  : cstate * list event :=
  match try_body tank_strs tank st with
  | (Ok _, st') => (st', [])
  | (Raise _, st') => (st', [ErrorCouldNotProcess (heap st' tank)])
  end.

Fixpoint tank_loop (tank_strs : dict string) (tanklist : list loc)
    (st : cstate) : cstate * list event :=
  match tanklist with
  | [] => (st, [])
  | tank :: rest =>
      let '(st1, ev1) := convert_one tank_strs tank st in
      let '(st2, ev2) := tank_loop tank_strs rest st1 in
      (st2, (ev1 ++ ev2)%list)
  end.

(** The filter of lines 192-205. *)
Definition re_strs : list regex :=
  [ (Bol :: lit "Chassis_");
    (Bol :: lit "Turret_");
    (Bol :: lit "_");
    (lit "_short" ++ [Eol])%list ].

Fixpoint skip_key (res : list regex) (key : string) : bool :=
  match res with
  | [] => false
  | re_str :: rest =>
      match re_match re_str key with
      | Some _ => true
      | None => skip_key rest key
      end
  end.

Fixpoint user_strs_loop (tank_strs : dict string) (keys : list string)
    (userStrs : dict string) : result (dict string) :=
  match keys with
  | [] => Ok userStrs
  | tank_str :: rest =>
      (key <- index (str_split ":" tank_str) 1 ;;
       text <- getitem tank_str tank_strs ;;
       if skip_key re_strs key then user_strs_loop tank_strs rest userStrs
       else user_strs_loop tank_strs rest (dict_set key text userStrs))%R
  end.

Definition convert_tank_names (tanklist : list loc) (tank_strs : dict string)
    (h : store)
  : result (dict (dict pyval) * dict string) * store * list event :=
  let '(st, ev) :=
    tank_loop tank_strs tanklist {| heap := h; tankopedia := [] |} in
  match (userStrs <- user_strs_loop tank_strs (dict_keys tank_strs) [] ;;
         ids <- sorted_key_int (dict_keys (tankopedia st)) ;;
         tankopedia_sorted <- copy_items (tankopedia st) ids [] ;;
         userStrs_sorted <-
           copy_items userStrs (sorted_str (dict_keys userStrs)) [] ;;
         Ok (tankopedia_sorted, userStrs_sorted))%R with
  | Ok r => (Ok r, heap st, ev)
  | Raise err => (Raise (SystemExit 1), heap st, (ev ++ [Error err])%list)
  end.

(** ** main (source lines 28-109)

    Argument parsing, the configuration file and the log level are left
    out.  A catalog file that [main] reads back is given by what reading
    it produced: [None] when the path does not exist, else the value
    [json.loads] returned or the exception the read raised. *)

Definition prior_file : Type := option (result pyval).

(** Lines 59-61 and the [gather] of line 64.  The event loop starts the
    tasks in the order of [wg.NATION] and runs each up to its first await,
    the opening of the vehicle list: a task whose list is missing prints
    and is done before any other task goes on.  [started_prints] is what
    the tasks of [nations] print in that first round. *)
Definition started_prints (wg : option WG) (fs : filesystem)
    (blitz_app_base : string) (nations : list string) : list event :=
  flat_map (fun nation =>
              match extract_tanks wg fs blitz_app_base nation with
              | (Ok None, ev) => ev
              | _ => []
              end) nations.

(** The tasks share nothing.  Those that read a file are resumed here in
    the order of [wg.NATION] (the event loop resumes them as their reads
    complete); the first that raises ends the [gather], after the prints
    of the first round. *)
Fixpoint gather_tanks (wg : option WG) (fs : filesystem)
    (blitz_app_base : string) (nations : list string)
  : result (list (option (list (dict pyval)))) * list event :=
  match nations with
  | [] => (Ok [], [])
  | nation :: rest =>
      let '(r, ev) := extract_tanks wg fs blitz_app_base nation in
      match r with
      | Raise e =>
          (Raise e, (started_prints wg fs blitz_app_base rest ++ ev)%list)
      | Ok tanks =>
          let '(rs, ev') := gather_tanks wg fs blitz_app_base rest in
          ((results <- rs ;; Ok (tanks :: results))%R, (ev ++ ev')%list)
      end
  end.

(** [tanklist.extend(x)]: [x] has to be iterable, None is not. *)
Definition extend {A} (l : list A) (x : option (list A)) : result (list A) :=
  match x with
  | Some l' => Ok (l ++ l')%list
  | None => Raise TypeError
  end.

(** Lines 63-65. *)
Fixpoint extend_all (tanklist : list (dict pyval))
    (results : list (option (list (dict pyval))))
  : result (list (dict pyval)) :=
  match results with
  | [] => Ok tanklist
  | tanklist_tmp :: rest =>
      (tanklist <- extend tanklist tanklist_tmp ;; extend_all tanklist rest)%R
  end.

Definition main_tanklist (wg : option WG) (fs : filesystem)
    (blitz_app_base : string) (nations : list string)
  : result (list (dict pyval)) * list event :=
  let '(rs, ev) := gather_tanks wg fs blitz_app_base nations in
  ((results <- rs ;; extend_all [] results)%R, ev).

(** Lines 69-79: the prior [userStr] and [data], each [{}] unless read. *)
Definition load_tankopedia (file : string) (prior : prior_file)
  : (pyval * pyval) * list event :=
  match prior with
  | None => ((PDict [], PDict []), [])
  | Some (Raise err) => ((PDict [], PDict []), [ErrorReadingFile file err])
  | Some (Ok json_data) =>
      match subscript json_data "userStr" with
      | Raise err => ((PDict [], PDict []), [ErrorReadingFile file err])
      | Ok userStrs =>
          match subscript json_data "data" with
          | Raise err => ((userStrs, PDict []), [ErrorReadingFile file err])
          | Ok tanks => ((userStrs, tanks), [])
          end
      end
  end.

(** [v.update(other)]: only a dict has the method. *)
Definition update_of (v : pyval) (other : dict pyval) : result (dict pyval) :=
  match v with
  | PDict d => Ok (dict_update d other)
  | _ => Raise AttributeError
  end.

Definition dict_map {A B} (f : A -> B) (d : dict A) : dict B :=
  map (fun kv => (fst kv, f (snd kv))) d.

(** Modelled from the spec: [blitzutils.sort_dict], which the source tree
    does not contain.  The spec asks for a "deterministic key ordering
    (numeric for the tankopedia's data field, lexicographic for userStr and
    for the maps catalog)": the items are sorted by their key, compared as
    [int(key)] when [number] is set and as text otherwise. *)
Definition sort_dict {V} (d : dict V) (number : bool) : result (dict V) :=
  if number then
    (zs <- mapM int_of_str (dict_keys d) ;;
     Ok (map snd (sorted (fun a b => Z.leb (fst a) (fst b)) (combine zs d))))%R
  else Ok (sorted (fun a b => String.leb (fst a) (fst b)) d).

(** The members of the JSON object [json.dumps(d, sort_keys=...)] writes
    for a dict, in the order they are written. *)
Definition dumps_members {V} (d : dict V) (sort_keys : bool) : dict V :=
  if sort_keys then sorted (fun a b => String.leb (fst a) (fst b)) d else d.

(** The document of lines 86-90; its members are written in this order. *)
Record tankopedia_doc : Type := {
  status : string;
  meta_count : Z;
  data : dict pyval;
  userStr : dict pyval
}.

(** Lines 84-90. *)
Definition merge_tankopedia (tanks userStrs : pyval)
    (new_tanks : dict (dict pyval)) (new_userStrs : dict string)
  : result tankopedia_doc :=
  (tanks <- update_of tanks (dict_map PDict new_tanks) ;;
   userStrs <- update_of userStrs (dict_map PStr new_userStrs) ;;
   data <- sort_dict tanks true ;;
   userStr <- sort_dict userStrs false ;;
   Ok {| status := "ok"; meta_count := len tanks;
         data := dumps_members data false;
         userStr := dumps_members userStr false |})%R.

(** Lines 96-107: the members of the maps file as written. *)
Definition merge_maps (file : string) (prior : prior_file)
    (map_strs : dict string) : result (dict pyval) * list event :=
  let '(maps, ev) :=
    match prior with
    | None => (PDict [], [])
    | Some (Raise err) => (PDict [], [ErrorReadingFile file err])
    | Some (Ok v) => (v, [])
    end in
  ((maps <- update_of maps (dict_map PStr map_strs) ;;
    Ok (dumps_members maps true))%R, ev).

(** The vehicle dicts of [tanklist] as objects: the i-th is at address i. *)
Definition alloc (tanklist : list (dict pyval)) : store :=
  fun l => nth l tanklist [].

Definition main (w : WG) (fs : filesystem)
    (blitz_app_base tanks_file maps_file : string)
    (prior_tanks prior_maps : prior_file)
  : result (tankopedia_doc * dict pyval) * list event :=
  let wg := Some w in
  let '(r1, ev1) := main_tanklist wg fs blitz_app_base (NATION w) in
  match r1 with
  | Raise e => (Raise e, ev1)
  | Ok tanklist =>
      let '(r2, ev2) := read_user_strs fs blitz_app_base in
      match r2 with
      | Raise e => (Raise e, (ev1 ++ ev2)%list)
      | Ok (tank_strs, map_strs) =>
          let '((userStrs, tanks), ev3) :=
            load_tankopedia tanks_file prior_tanks in
          let '(r4, _, ev4) :=
            convert_tank_names (seq 0 (List.length tanklist)) tank_strs
              (alloc tanklist) in
          let '(r5, ev5) := merge_maps maps_file prior_maps map_strs in
          let ev := (ev1 ++ ev2 ++ ev3 ++ ev4)%list in
          match (new <- r4 ;;
                 merge_tankopedia tanks userStrs (fst new) (snd new))%R with
          | Raise e => (Raise e, ev)
          | Ok tankopedia =>
              ((maps <- r5 ;; Ok (tankopedia, maps))%R, (ev ++ ev5)%list)
          end
      end
  end.

End Program.

(** ** Predicates the properties are stated with *)

(** The text contains the character. *)
Definition has_char (c : ascii) (s : string) : Prop :=
  In c (list_ascii_of_string s).

Definition all_digits (s : string) : Prop :=
  Forall (fun c => is_digit c = true) (list_ascii_of_string s).

(** Strictly increasing in code-point order. *)
Definition increasing_str (keys : list string) : Prop :=
  StronglySorted (fun a b => String.ltb a b = true) keys.

(** The keys all parse as ints and the ints are non-decreasing, resp.
    strictly increasing. *)
Definition nondecreasing_int (keys : list string) : Prop :=
  exists zs, mapM int_of_str keys = Ok zs /\ StronglySorted Z.le zs.

Definition increasing_int (keys : list string) : Prop :=
  exists zs, mapM int_of_str keys = Ok zs /\ StronglySorted Z.lt zs.

(** A key is canonical when it is the text [str] gives for some int. *)
Definition canonical_key (k : string) : Prop := exists z, k = str_of_int z.

(** An item paired with the int its key denotes. *)
Definition keyed {V} (p : Z * (string * V)) : Prop :=
  int_of_str (fst (snd p)) = Ok (fst p).

(** A value that is a dict has distinct keys, as every dict has. *)
Definition pyval_wf (v : pyval) : Prop :=
  forall d, v = PDict d -> dict_wf d.

Definition prior_wf (prior : prior_file) : Prop :=
  forall v, prior = Some (Ok v) -> pyval_wf v.

(** No entry of a string table has the text "Macragge". *)
Definition no_macragge (d : dict string) : Prop :=
  forall k v, In (k, v) d -> v <> "Macragge".

(** The value lines 180-183 assign to [tank['name']], as one expression. *)
Definition resolve_name (tank_strs : dict string) (u : pyval)
  : result string :=
  (known <- contains tank_strs u ;;
   if known : bool then lookup tank_strs u
   else (parts <- split_of u ":" ;; index parts 1))%R.

(** The state the loop over the vehicles starts from. *)
Definition init_state (h : store) : cstate :=
  {| heap := h; tankopedia := [] |}.

(** ** Sample inputs, to run the definitions on *)

(** A table with three nations. *)
Definition wg_sample : WG := {|
  NATION := ["ussr"; "germany"; "usa"];
  NATION_ID := [("ussr", 0); ("germany", 1); ("usa", 2)];
  TANK_TYPE := ["lightTank"; "mediumTank"; "heavyTank"; "AT-SPG"]
|}.

(** Instances of the three open library behaviours. *)
Definition ascii_word (a : ascii) : bool :=
  let n := N_of_ascii a in
  (((48 <=? n) && (n <=? 57)) || ((65 <=? n) && (n <=? 90))
   || ((97 <=? n) && (n <=? 122)) || (n =? 95))%N.

Definition sample_repr (v : pyval) : string := "{...}".

Definition sample_parse (content : string) : result pyval :=
  Ok (PDict [("root", PDict [("T-34", PDict
        [("id", PStr "0"); ("userString", PStr "#ussr_vehicles:T-34");
         ("price", PStr "1000"); ("tags", PStr "mediumTank");
         ("level", PStr "5")])])]).

(** A client tree that has the vehicle list of one nation only. *)
Definition ussr_list : string := "./Data/XML/item_defs/vehicles/ussr/list.xml".

Definition fs_ussr_only : filesystem := {|
  isdir := fun _ => false;
  isfile := fun p => String.eqb p ussr_list;
  open_read := fun p =>
    if String.eqb p ussr_list then Ok (Ok "<root>...</root>")
    else Raise OSError
|}.

(** A client tree that has the localization file only; the file has two
    map lines, one of them for "Macragge", and a vehicle line. *)
Definition quoted (s : string) : string :=
  (String dquote s ++ String dquote "")%string.

Definition yaml_line (key text : string) : string :=
  (quoted key ++ ": " ++ quoted text ++ String newline "")%string.

Definition sample_strings : string :=
  (yaml_line "#maps:desert:name" "Desert Sands"
   ++ yaml_line "#maps:macragge:name" "Macragge"
   ++ yaml_line "#ussr_vehicles:T-34" "T-34")%string.

Definition fs_strings_only : filesystem := {|
  isdir := fun _ => false;
  isfile := fun p => String.eqb p "./Data/Strings/en.yaml";
  open_read := fun p =>
    if String.eqb p "./Data/Strings/en.yaml" then Ok (Ok sample_strings)
    else Raise OSError
|}.

(** Two vehicles: the display key of one has a colon, that of the other
    has none. *)
Definition tank_T34 : dict pyval :=
  [("is_premium", PBool false); ("nation", PStr "ussr"); ("tank_id", PInt 1);
   ("tier", PInt 5); ("type", PStr "mediumTank");
   ("userStr", PStr "#tank_vehicles:T34")].

Definition tank_nocolon : dict pyval :=
  [("is_premium", PBool true); ("nation", PStr "usa"); ("tank_id", PInt 289);
   ("tier", PInt 7); ("type", PNone); ("userStr", PStr "nocolon")].

(** Vehicle strings whose short keys are Chassis_Foo, Turret_Bar, _Baz,
    Something_short and Foo. *)
Definition sample_tank_strs : dict string :=
  [("#x_vehicles:Chassis_Foo", "a"); ("#x_vehicles:Turret_Bar", "b");
   ("#x_vehicles:_Baz", "c"); ("#x_vehicles:Something_short", "d");
   ("#x_vehicles:Foo", "e")].

(** A prior tankopedia and fresh data to merge into it, and the document
    the merge writes. *)
Definition prior_data : pyval := PDict [("513", PDict []); ("1", PDict [])].
Definition prior_userStr : pyval := PDict [("T-34", PStr "T-34")].
Definition fresh_tanks : dict (dict pyval) := [("257", [("tier", PInt 5)])].
Definition fresh_userStrs : dict string := [("KV-1", "KV-1")].
Definition fresh_maps : dict string :=
  [("desert", "Desert Sands"); ("canal", "Canal")].

Definition merged_doc : tankopedia_doc := {|
  status := "ok";
  meta_count := 3;
  data := [("1", PDict []); ("257", PDict [("tier", PInt 5)]);
           ("513", PDict [])];
  userStr := [("KV-1", PStr "KV-1"); ("T-34", PStr "T-34")]
|}.

(** A prior tankopedia file whose [data] has the keys "1" and "01". *)
Definition prior_with_01 : pyval :=
  PDict [("status", PStr "ok"); ("meta", PDict [("count", PInt 2)]);
         ("data", PDict [("1", PDict [("name", PStr "A")]);
                         ("01", PDict [("name", PStr "B")])]);
         ("userStr", PDict [])].

(** ** Further predicates *)

(** Every ['tank_id'] in the store is an int. *)
Definition int_ids (h : store) : Prop :=
  forall l id, dict_get "tank_id" (h l) = Some id -> exists z, id = PInt z.

(** An entry of the tankopedia as the name resolver leaves it: filed
    under [str] of its id, with a name, without the display key, its keys
    in increasing order. *)
Definition resolved_entry (repr : pyval -> string)
    (kv : string * dict pyval) : Prop :=
  (exists id, dict_get "tank_id" (snd kv) = Some id /\ fst kv = str_of repr id)
  /\ (exists name, dict_get "name" (snd kv) = Some (PStr name))
  /\ dict_get "userStr" (snd kv) = None
  /\ increasing_str (dict_keys (snd kv)).

(** A vehicle dict on which the body of the loop raises before it writes
    anything: no display key, or a display key without a name. *)
Definition unprocessable (tank_strs : dict string) (d : dict pyval) : Prop :=
  match dict_get "userStr" d with
  | None => True
  | Some u =>
      match resolve_name tank_strs u with
      | Ok _ => False
      | Raise _ => True
      end
  end.

(** The numbers of an entry of a vehicle list, ['id'] and ['level'], are
    ASCII texts where they are texts. *)
Definition ascii_field (tank_xml : pyval) (k : string) : bool :=
  match subscript tank_xml k with
  | Ok (PStr s) => is_ascii s
  | _ => true
  end.

Definition ascii_numbers (tank_xml : pyval) : bool :=
  ascii_field tank_xml "id" && ascii_field tank_xml "level".

(** ** Further sample inputs *)

Definition tank_KV1 : dict pyval :=
  [("is_premium", PBool false); ("nation", PStr "ussr");
   ("tank_id", PInt 513); ("tier", PInt 6); ("type", PStr "heavyTank");
   ("userStr", PStr "#ussr_vehicles:KV-1")].

(** Two vehicles in a store, listed in decreasing order of their ids. *)
Definition sample_store : store := alloc [tank_KV1; tank_T34].
Definition sample_tanklist : list loc := [0%nat; 1%nat].

(** What the name resolver returns for them. *)
Definition sample_converted : dict (dict pyval) :=
  [("1",
    [("is_premium", PBool false); ("name", PStr "T34");
     ("nation", PStr "ussr"); ("tank_id", PInt 1); ("tier", PInt 5);
     ("type", PStr "mediumTank")]);
   ("513",
    [("is_premium", PBool false); ("name", PStr "KV-1");
     ("nation", PStr "ussr"); ("tank_id", PInt 513); ("tier", PInt 6);
     ("type", PStr "heavyTank")])].

Definition sample_userStrs : dict string :=
  [("Foo", "e"); ("Something_short", "d")].

(** The vehicle list [extract_tanks] looks for (lines 115-117). *)
Definition list_xml_path (fs : filesystem) (blitz_app_base nation : string)
  : string :=
  path_join
    (if isdir fs (path_join blitz_app_base ["assets"])
     then path_join blitz_app_base ["assets"] else blitz_app_base)
    [BLITZAPP_VEHICLES_DIR; nation; BLITZAPP_VEHICLE_FILE].

(** A vehicle dict as [extract_tanks] builds it: the six keys in the
    order of their assignment, the nation it was asked for, an id encoded
    from the nation's index, and a type that is None or a known tag. *)
Definition raw_record (w : WG) (nation : string) (tank : dict pyval) : Prop :=
  dict_keys tank =
    ["is_premium"; "nation"; "tank_id"; "tier"; "type"; "userStr"] /\
  (exists b, dict_get "is_premium" tank = Some (PBool b)) /\
  dict_get "nation" tank = Some (PStr nation) /\
  (exists nation_index raw_id,
     dict_get nation (NATION_ID w) = Some nation_index /\
     dict_get "tank_id" tank =
       Some (PInt (Z.shiftl raw_id 8 + Z.shiftl nation_index 4 + 1))) /\
  (exists tier, dict_get "tier" tank = Some (PInt tier)) /\
  (dict_get "type" tank = Some PNone \/
   exists t, In t (TANK_TYPE w) /\ dict_get "type" tank = Some (PStr t)).

(** A vehicle list with a complete entry and one without a level. *)
Definition parse_broken (content : string) : result pyval :=
  Ok (PDict [("root", PDict
        [("T-34", PDict
            [("id", PStr "0"); ("userString", PStr "#ussr_vehicles:T-34");
             ("price", PStr "1000"); ("tags", PStr "mediumTank");
             ("level", PStr "5")]);
         ("KV-1", PDict
            [("id", PStr "2"); ("userString", PStr "#ussr_vehicles:KV-1");
             ("price", PDict [("gold", PNone)]);
             ("tags", PStr "heavyTank")])])]).

(** A key of the vehicle-string table as the pattern [p_tank] captures
    it: [#], a tag, [_vehicles:], a rest. *)
Definition vehicle_key (k : string) : Prop :=
  exists tag rest,
    tag <> EmptyString /\ rest <> EmptyString /\
    k = ("#" ++ tag ++ "_vehicles:" ++ rest)%string.

(** A client tree with one nation, its vehicle list and the localization
    file. *)
Definition wg_ussr : WG := {|
  NATION := ["ussr"];
  NATION_ID := [("ussr", 0)];
  TANK_TYPE := ["lightTank"; "mediumTank"; "heavyTank"; "AT-SPG"]
|}.

Definition fs_complete : filesystem := {|
  isdir := fun _ => false;
  isfile := fun p =>
    (String.eqb p ussr_list || String.eqb p "./Data/Strings/en.yaml")%bool;
  open_read := fun p =>
    if String.eqb p ussr_list then Ok (Ok "<root>...</root>")
    else if String.eqb p "./Data/Strings/en.yaml" then Ok (Ok sample_strings)
    else Raise OSError
|}.

(** The vehicle of [sample_parse] as the extractor builds it. *)
Definition tank_T34_raw : dict pyval :=
  [("is_premium", PBool false); ("nation", PStr "ussr"); ("tank_id", PInt 1);
   ("tier", PInt 5); ("type", PStr "mediumTank");
   ("userStr", PStr "#ussr_vehicles:T-34")].

(** * Properties *)

(** ** The definitions at work *)

Example split_display_key :
  str_split ":" "#tank_vehicles:T34" = ["#tank_vehicles"; "T34"].
Proof. reflexivity. Qed.

Example split_without_colon : str_split ":" "nocolon" = ["nocolon"].
Proof. reflexivity. Qed.

Example int_of_str_examples :
  int_of_str "25633" = Ok 25633 /\ int_of_str " -1_000 " = Ok (-1000) /\
  int_of_str "01" = Ok 1 /\ int_of_str "T34" = Raise ValueError /\
  int_of_str "" = Raise ValueError.
Proof. repeat split. Qed.

(** The separators 0x1c to 0x1f are not among the spaces [int()] drops
    from an ASCII text; tab to carriage return are. *)
Example int_of_str_spaces :
  int_of_str (String "028" "5") = Raise ValueError /\
  int_of_str (String "009" (String "011" "5")) = Ok 5.
Proof. repeat split. Qed.

Example str_of_int_examples :
  str_of_int 25633 = "25633" /\ str_of_int 0 = "0" /\ str_of_int (-7) = "-7".
Proof. repeat split. Qed.

Example sorted_key_int_example :
  sorted_key_int ["513"; "10"; "9"] = Ok ["9"; "10"; "513"] /\
  sorted_str ["513"; "10"; "9"] = ["10"; "513"; "9"].
Proof. split; reflexivity. Qed.

Example path_join_example :
  path_join "." [BLITZAPP_VEHICLES_DIR; "usa"; BLITZAPP_VEHICLE_FILE] =
  "./Data/XML/item_defs/vehicles/usa/list.xml".
Proof. reflexivity. Qed.

Example get_tank_type_examples :
  get_tank_type (Some wg_sample) (PStr "lightTank extra_tag") =
    Ok (PStr "lightTank") /\
  get_tank_type (Some wg_sample) (PStr "unknownTag") = Ok PNone /\
  get_tank_type None (PStr "lightTank") = Raise AssertionError.
Proof. repeat split. Qed.

Example p_map_example :
  option_map (fun m => (group m 1, group m 2))
    (re_match p_map (yaml_line "#maps:desert:name" "Desert Sands")) =
  Some ("desert", "Desert Sands").
Proof. reflexivity. Qed.

Example p_tank_example :
  option_map (fun m => (group m 1, group m 2))
    (re_match (p_tank ascii_word) (yaml_line "#ussr_vehicles:T-34" "T-34")) =
  Some ("#ussr_vehicles:T-34", "T-34") /\
  re_match (p_tank ascii_word) (yaml_line "#maps:desert:name" "Desert") = None.
Proof. split; reflexivity. Qed.

Example match_anchors_at_the_start :
  re_match (lit "_short" ++ [Eol])%list "_short" <> None /\
  re_match (lit "_short" ++ [Eol])%list "Something_short" = None.
Proof. split; [discriminate|reflexivity]. Qed.

(** Merging nothing new leaves the catalog as it was. *)
Example merge_nothing (prior : dict pyval) :
  update_of (PDict prior) [] = Ok prior.
Proof. reflexivity. Qed.

(** ** Facts about dicts *)

Section DictFacts.
Context {V : Type}.
Implicit Types (d : dict V) (k : string) (v : V).

Lemma dict_get_set d k k' v :
  dict_get k (dict_set k' v d) =
  if String.eqb k k' then Some v else dict_get k d.
Proof.
  induction d as [|[k0 v0] d IH]; simpl.
  - destruct (String.eqb k k'); reflexivity.
  - destruct (String.eqb_spec k' k0) as [->|Hne]; simpl.
    + destruct (String.eqb k k0); reflexivity.
    + rewrite IH. destruct (String.eqb_spec k k0) as [->|]; [|reflexivity].
      destruct (String.eqb_spec k0 k'); congruence.
Qed.

Lemma dict_get_set_eq d k v : dict_get k (dict_set k v d) = Some v.
Proof. rewrite dict_get_set, String.eqb_refl. reflexivity. Qed.

Lemma dict_get_set_ne d k k' v :
  k <> k' -> dict_get k (dict_set k' v d) = dict_get k d.
Proof.
  intros Hne. rewrite dict_get_set.
  destruct (String.eqb_spec k k'); congruence.
Qed.

Lemma dict_get_None d k : dict_get k d = None <-> ~ In k (dict_keys d).
Proof.
  induction d as [|[k0 v0] d IH]; simpl.
  - tauto.
  - destruct (String.eqb_spec k k0) as [->|Hne].
    + split; [discriminate | tauto].
    + rewrite IH. split; [intros H [E|I]; [congruence | tauto] | tauto].
Qed.

Lemma dict_get_In d k v : dict_get k d = Some v -> In (k, v) d.
Proof.
  induction d as [|[k0 v0] d IH]; simpl; [discriminate|].
  destruct (String.eqb_spec k k0) as [->|Hne].
  - intros [= ->]. now left.
  - intros H. right. now apply IH.
Qed.

Lemma In_dict_get d k v : dict_wf d -> In (k, v) d -> dict_get k d = Some v.
Proof.
  unfold dict_wf.
  induction d as [|[k0 v0] d IH]; simpl; [tauto|].
  intros Hwf [E|I].
  - injection E as -> ->. now rewrite String.eqb_refl.
  - inversion Hwf as [|? ? Hnotin Hwf']; subst.
    destruct (String.eqb_spec k k0) as [->|Hne].
    + exfalso. apply Hnotin. change (In (fst (k0, v)) (map fst d)).
      now apply in_map.
    + now apply IH.
Qed.

Lemma dict_keys_set d k v :
  dict_keys (dict_set k v d) =
  if dict_mem k d then dict_keys d else (dict_keys d ++ [k])%list.
Proof.
  unfold dict_mem.
  induction d as [|[k0 v0] d IH]; simpl; [reflexivity|].
  destruct (String.eqb_spec k k0) as [->|Hne]; simpl; [reflexivity|].
  rewrite IH. destruct (dict_get k d); reflexivity.
Qed.

Lemma dict_set_wf d k v : dict_wf d -> dict_wf (dict_set k v d).
Proof.
  unfold dict_wf. intros Hwf. rewrite dict_keys_set. unfold dict_mem.
  destruct (dict_get k d) eqn:E; [assumption|].
  apply dict_get_None in E.
  apply NoDup_rev in Hwf. rewrite <- (rev_involutive (_ ++ _)%list).
  apply NoDup_rev. rewrite rev_app_distr. simpl. constructor; [|assumption].
  now rewrite <- in_rev.
Qed.

Lemma In_dict_set d k v k' v' :
  In (k', v') (dict_set k v d) -> (k', v') = (k, v) \/ In (k', v') d.
Proof.
  induction d as [|[k0 v0] d IH]; simpl.
  - intros [E|[]]. left. now symmetry.
  - destruct (String.eqb k k0); simpl.
    + intros [E|I]; [left; now symmetry | right; now right].
    + intros [E|I]; [right; now left|].
      destruct (IH I) as [E|I']; [now left | right; now right].
Qed.

Lemma dict_update_wf d other : dict_wf d -> dict_wf (dict_update d other).
Proof.
  unfold dict_update. revert d.
  induction other as [|[k v] other IH]; simpl; intros d Hwf; [assumption|].
  apply IH. now apply dict_set_wf.
Qed.

Lemma In_dict_update d other k v :
  In (k, v) (dict_update d other) -> In (k, v) d \/ In (k, v) other.
Proof.
  unfold dict_update. revert d.
  induction other as [|[k0 v0] other IH]; simpl; intros d H; [now left|].
  destruct (IH _ H) as [H1|H1]; [|right; now right].
  destruct (In_dict_set _ _ _ _ _ H1) as [E|I]; [right; left; now symmetry|].
  now left.
Qed.

(** The lookup in [d.update(other)]: [other] first, then [d]. *)
Lemma dict_get_update d other k :
  dict_wf other ->
  dict_get k (dict_update d other) =
  match dict_get k other with
  | Some v => Some v
  | None => dict_get k d
  end.
Proof.
  unfold dict_update, dict_wf. revert d.
  induction other as [|[k0 v0] other IH]; simpl; intros d Hwf; [reflexivity|].
  inversion Hwf as [|? ? Hnotin Hwf']; subst.
  rewrite IH by assumption.
  destruct (String.eqb_spec k k0) as [->|Hne].
  - apply dict_get_None in Hnotin. rewrite Hnotin. apply dict_get_set_eq.
  - rewrite dict_get_set_ne by assumption. reflexivity.
Qed.

Lemma dict_get_pop_ne d k k' :
  k <> k' -> dict_get k (dict_pop k' d) = dict_get k d.
Proof.
  intros Hne. induction d as [|[k0 v0] d IH]; simpl; [reflexivity|].
  destruct (String.eqb_spec k' k0) as [->|Hne0]; simpl.
  - destruct (String.eqb_spec k k0); congruence.
  - now rewrite IH.
Qed.

Lemma dict_get_pop_eq d k : dict_wf d -> dict_get k (dict_pop k d) = None.
Proof.
  unfold dict_wf.
  induction d as [|[k0 v0] d IH]; simpl; intros Hwf; [reflexivity|].
  inversion Hwf as [|? ? Hnotin Hwf']; subst.
  destruct (String.eqb_spec k k0) as [->|Hne]; simpl.
  - now apply dict_get_None.
  - destruct (String.eqb_spec k k0); [congruence|]. now apply IH.
Qed.

Lemma dict_keys_pop_incl d k x :
  In x (dict_keys (dict_pop k d)) -> In x (dict_keys d).
Proof.
  induction d as [|[k0 v0] d IH]; simpl; [tauto|].
  destruct (String.eqb k k0); simpl; [tauto|].
  intros [E|I]; [now left | right; now apply IH].
Qed.

Lemma dict_pop_wf d k : dict_wf d -> dict_wf (dict_pop k d).
Proof.
  unfold dict_wf.
  induction d as [|[k0 v0] d IH]; simpl; intros Hwf; [constructor|].
  inversion Hwf as [|? ? Hnotin Hwf']; subst.
  destruct (String.eqb k k0); simpl; [assumption|].
  constructor; [|now apply IH].
  intros Hin. apply Hnotin. eapply dict_keys_pop_incl, Hin.
Qed.

End DictFacts.

(** ** The identifier encoder *)

Lemma lor_shiftl_low (a b k : Z) :
  0 <= k -> 0 <= b < 2 ^ k -> Z.lor (Z.shiftl a k) b = Z.shiftl a k + b.
Proof.
  intros Hk Hb.
  assert (Hland : Z.land (Z.shiftl a k) b = 0).
  { apply Z.bits_inj'. intros i Hi.
    rewrite Z.land_spec, Z.bits_0.
    destruct (Z.lt_ge_cases i k) as [Hlt|Hge].
    - rewrite Z.shiftl_spec_low by assumption. reflexivity.
    - rewrite <- (Z.mod_small b (2 ^ k)) by assumption.
      rewrite Z.mod_pow2_bits_high by lia. apply andb_false_r. }
  rewrite Z.add_nocarry_lxor by assumption.
  symmetry. now apply Z.lxor_lor.
Qed.

(** On the nation indices the table can hold, the sum the code computes
    is the bitwise-or of the documented formula. *)
Lemma encode_sum_is_lor (nation_index raw_id : Z) :
  0 <= nation_index <= 15 ->
  Z.shiftl raw_id 8 + Z.shiftl nation_index 4 + 1 =
  encode_id_formula nation_index raw_id.
Proof.
  intros Hn. unfold encode_id_formula.
  assert (H4 : Z.shiftl nation_index 4 = nation_index * 16)
    by (rewrite Z.shiftl_mul_pow2 by lia; reflexivity).
  rewrite (lor_shiftl_low raw_id (Z.shiftl nation_index 4) 8);
    [|lia|rewrite H4; change (2 ^ 8) with 256; lia].
  assert (E : Z.shiftl raw_id 8 + Z.shiftl nation_index 4 =
              Z.shiftl (raw_id * 16 + nation_index) 4).
  { rewrite !Z.shiftl_mul_pow2 by lia.
    change (2 ^ 8) with 256. change (2 ^ 4) with 16. lia. }
  rewrite E. rewrite lor_shiftl_low; [reflexivity|lia|].
  change (2 ^ 4) with 16. lia.
Qed.

Lemma get_tank_id_eq (w : WG) (nation : string) (nation_index raw_id : Z) :
  dict_get nation (NATION_ID w) = Some nation_index ->
  get_tank_id (Some w) nation raw_id =
  Ok (Z.shiftl raw_id 8 + Z.shiftl nation_index 4 + 1).
Proof. intros H. unfold get_tank_id, getitem. rewrite H. reflexivity. Qed.

(** C4 (as amended): with nation index 2 and raw id 100 the encoder
    returns 25633 = 25600 + 32 + 1, and so does the documented formula
    [(100 << 8) | (2 << 4) | 1]. *)
Theorem encode_id_example (w : WG) (nation : string) :
  dict_get nation (NATION_ID w) = Some 2 ->
  get_tank_id (Some w) nation 100 = Ok 25633 /\
  encode_id_formula 2 100 = 25633.
Proof.
  intros H. split; [|reflexivity].
  rewrite (get_tank_id_eq w nation 2 100 H). reflexivity.
Qed.

Lemma encode_id_example_witness :
  dict_get "usa" (NATION_ID wg_sample) = Some 2 /\
  get_tank_id (Some wg_sample) "usa" 100 = Ok 25633 /\
  encode_id_formula 2 100 = 25633.
Proof.
  split; [reflexivity|].
  apply (encode_id_example wg_sample "usa"). reflexivity.
Defined.

(** C4 (as stated) fails: at nation index 2 and raw id 100 neither the
    encoder nor the documented formula gives 25665. *)
Lemma encode_id_example_not_25665 :
  dict_get "usa" (NATION_ID wg_sample) = Some 2 /\
  get_tank_id (Some wg_sample) "usa" 100 <> Ok 25665 /\
  encode_id_formula 2 100 <> 25665.
Proof.
  split; [reflexivity|]. split; [|discriminate].
  vm_compute. discriminate.
Qed.

(** C7: the encoder is injective on nation indices in [0..15] and
    non-negative raw ids: two distinct (nation index, raw id) pairs get
    distinct ids, and each id is the value of the documented formula
    [(raw_id << 8) | (nation_index << 4) | 1]. *)
Theorem encode_id_injective (w : WG) (nation1 nation2 : string)
    (index1 index2 raw1 raw2 : Z) :
  dict_get nation1 (NATION_ID w) = Some index1 ->
  dict_get nation2 (NATION_ID w) = Some index2 ->
  0 <= index1 <= 15 -> 0 <= index2 <= 15 ->
  0 <= raw1 -> 0 <= raw2 ->
  (index1, raw1) <> (index2, raw2) ->
  exists id1 id2,
    get_tank_id (Some w) nation1 raw1 = Ok id1 /\
    get_tank_id (Some w) nation2 raw2 = Ok id2 /\
    id1 = encode_id_formula index1 raw1 /\
    id2 = encode_id_formula index2 raw2 /\
    id1 <> id2.
Proof.
  intros H1 H2 Hi1 Hi2 Hr1 Hr2 Hne.
  exists (Z.shiftl raw1 8 + Z.shiftl index1 4 + 1),
         (Z.shiftl raw2 8 + Z.shiftl index2 4 + 1).
  repeat split.
  - now apply get_tank_id_eq.
  - now apply get_tank_id_eq.
  - now apply encode_sum_is_lor.
  - now apply encode_sum_is_lor.
  - rewrite !Z.shiftl_mul_pow2 by lia.
    change (2 ^ 8) with 256. change (2 ^ 4) with 16.
    intros E. apply Hne.
    assert (raw1 = raw2) by lia. assert (index1 = index2) by lia.
    congruence.
Qed.

Lemma encode_id_injective_witness :
  exists id1 id2,
    get_tank_id (Some wg_sample) "germany" 7 = Ok id1 /\
    get_tank_id (Some wg_sample) "usa" 7 = Ok id2 /\
    id1 = encode_id_formula 1 7 /\
    id2 = encode_id_formula 2 7 /\
    id1 <> id2.
Proof.
  apply (encode_id_injective wg_sample "germany" "usa" 1 2 7 7);
    try reflexivity; try lia.
  intros E. discriminate E.
Defined.

(** ** Facts about [dict_map] and reordered dicts *)

Lemma dict_map_keys {A B} (f : A -> B) (d : dict A) :
  dict_keys (dict_map f d) = dict_keys d.
Proof.
  unfold dict_keys, dict_map. rewrite map_map. reflexivity.
Qed.

Lemma dict_map_wf {A B} (f : A -> B) (d : dict A) :
  dict_wf d -> dict_wf (dict_map f d).
Proof. unfold dict_wf. now rewrite dict_map_keys. Qed.

Lemma perm_dict_get {V} (d d' : dict V) (k : string) :
  Permutation d d' -> dict_wf d -> dict_get k d' = dict_get k d.
Proof.
  intros Hp Hwf.
  assert (Hwf' : dict_wf d').
  { eapply Permutation_NoDup; [|exact Hwf]. now apply Permutation_map. }
  destruct (dict_get k d) as [v|] eqn:E.
  - apply In_dict_get; [assumption|].
    eapply Permutation_in; [exact Hp|]. now apply dict_get_In.
  - destruct (dict_get k d') as [v'|] eqn:E'; [|reflexivity].
    apply dict_get_In in E'.
    apply (Permutation_in _ (Permutation_sym Hp)) in E'.
    rewrite (In_dict_get _ _ _ Hwf E') in E. discriminate E.
Qed.

Lemma dict_get_map {A B} (f : A -> B) (d : dict A) (k : string) :
  dict_get k (dict_map f d) = option_map f (dict_get k d).
Proof.
  induction d as [|[k0 v0] d IH]; simpl; [reflexivity|].
  destruct (String.eqb k k0); [reflexivity|exact IH].
Qed.

(** ** Facts about [sorted] *)

Section SortedFacts.
Context {A : Type} (le : A -> A -> bool).

Lemma insert_perm (x : A) (l : list A) : Permutation (x :: l) (insert le x l).
Proof.
  induction l as [|y l IH]; simpl; [reflexivity|].
  destruct (le x y); [reflexivity|].
  rewrite perm_swap. now constructor.
Qed.

Lemma sorted_perm (l : list A) : Permutation l (sorted le l).
Proof.
  induction l as [|x l IH]; simpl; [reflexivity|].
  rewrite <- insert_perm. now constructor.
Qed.

Lemma sorted_In (l : list A) (x : A) : In x (sorted le l) <-> In x l.
Proof.
  split; apply Permutation_in; [symmetry|]; apply sorted_perm.
Qed.

Hypothesis le_total : forall a b, le a b = true \/ le b a = true.
Hypothesis le_trans : forall a b c,
  le a b = true -> le b c = true -> le a c = true.

Lemma insert_sorted (x : A) (l : list A) :
  StronglySorted (fun a b => le a b = true) l ->
  StronglySorted (fun a b => le a b = true) (insert le x l).
Proof.
  induction 1 as [|y l Hs IH Hall]; simpl; [repeat constructor|].
  destruct (le x y) eqn:E.
  - constructor; [now constructor|]. constructor; [assumption|].
    eapply Forall_impl; [|exact Hall]. intros z Hz. eapply le_trans; eassumption.
  - constructor; [assumption|].
    apply (Permutation_Forall (insert_perm x l)).
    constructor; [|assumption].
    destruct (le_total x y) as [H|H]; [congruence|assumption].
Qed.

Lemma sorted_sorted (l : list A) :
  StronglySorted (fun a b => le a b = true) (sorted le l).
Proof.
  induction l as [|x l IH]; simpl; [constructor|]. now apply insert_sorted.
Qed.

End SortedFacts.

(** A sorted list without two equal keys is strictly sorted. *)
Lemma sorted_strict {A K : Type} (key : A -> K) (R S : K -> K -> Prop)
    (l : list A) :
  (forall a b, R a b -> a <> b -> S a b) ->
  StronglySorted (fun a b => R (key a) (key b)) l ->
  NoDup (map key l) ->
  StronglySorted S (map key l).
Proof.
  intros HRS Hs. induction Hs as [|x l Hs IH Hall]; simpl; intros Hnd.
  - constructor.
  - inversion Hnd as [|? ? Hnotin Hnd']; subst.
    constructor; [now apply IH|].
    apply Forall_forall. intros k Hk.
    apply in_map_iff in Hk as [y [<- Hy]].
    apply HRS.
    + rewrite Forall_forall in Hall. now apply Hall.
    + intros E. apply Hnotin. rewrite E. now apply in_map.
Qed.

(** ** The order of str *)

Lemma ascii_compare_lt_trans (a b c : ascii) :
  Ascii.compare a b = Lt -> Ascii.compare b c = Lt -> Ascii.compare a c = Lt.
Proof.
  unfold Ascii.compare. rewrite !N.compare_lt_iff. apply N.lt_trans.
Qed.

Lemma string_compare_lt_trans (s1 s2 s3 : string) :
  String.compare s1 s2 = Lt -> String.compare s2 s3 = Lt ->
  String.compare s1 s3 = Lt.
Proof.
  revert s2 s3.
  induction s1 as [|a s1 IH]; intros [|b s2] [|c s3]; simpl;
    try discriminate; try reflexivity.
  destruct (Ascii.compare a b) eqn:Eab; try discriminate;
    destruct (Ascii.compare b c) eqn:Ebc; try discriminate.
  - apply Ascii.compare_eq_iff in Eab, Ebc. subst.
    assert (Ecc : Ascii.compare c c = Eq)
      by (unfold Ascii.compare; apply N.compare_refl).
    rewrite Ecc. apply IH.
  - apply Ascii.compare_eq_iff in Eab. subst. now rewrite Ebc.
  - apply Ascii.compare_eq_iff in Ebc. subst. now rewrite Eab.
  - now rewrite (ascii_compare_lt_trans a b c).
Qed.

Lemma string_compare_refl (s : string) : String.compare s s = Eq.
Proof.
  induction s as [|a s IH]; simpl; [reflexivity|].
  assert (E : Ascii.compare a a = Eq)
    by (unfold Ascii.compare; apply N.compare_refl).
  now rewrite E.
Qed.

Lemma string_leb_trans (s1 s2 s3 : string) :
  String.leb s1 s2 = true -> String.leb s2 s3 = true ->
  String.leb s1 s3 = true.
Proof.
  unfold String.leb.
  destruct (String.compare s1 s2) eqn:E12; try discriminate;
    destruct (String.compare s2 s3) eqn:E23; try discriminate; intros _ _.
  - apply String.compare_eq_iff in E12, E23. subst.
    now rewrite string_compare_refl.
  - apply String.compare_eq_iff in E12. subst. now rewrite E23.
  - apply String.compare_eq_iff in E23. subst. now rewrite E12.
  - now rewrite (string_compare_lt_trans s1 s2 s3).
Qed.

Lemma string_leb_ltb (s1 s2 : string) :
  String.leb s1 s2 = true -> s1 <> s2 -> String.ltb s1 s2 = true.
Proof.
  unfold String.leb, String.ltb.
  destruct (String.compare s1 s2) eqn:E; try discriminate; [|reflexivity].
  apply String.compare_eq_iff in E. congruence.
Qed.

Lemma sorted_by_key_increasing {V} (d : dict V) :
  dict_wf d ->
  increasing_str
    (dict_keys (sorted (fun a b => String.leb (fst a) (fst b)) d)).
Proof.
  intros Hwf. unfold increasing_str, dict_keys.
  apply (sorted_strict fst (fun a b => String.leb a b = true)).
  - intros a b. apply string_leb_ltb.
  - apply sorted_sorted.
    + intros a b. apply String.leb_total.
    + intros a b c. apply string_leb_trans.
  - eapply Permutation_NoDup; [|exact Hwf].
    apply Permutation_map, sorted_perm.
Qed.

(** ** The string table reader *)

Section ReadUserStrs.
Variable unicode_word : ascii -> bool.

Lemma read_lines_no_macragge (lines : list string)
    (tank_strs map_strs : dict string) :
  no_macragge map_strs ->
  no_macragge (snd (read_lines unicode_word lines tank_strs map_strs)).
Proof.
  revert tank_strs map_strs.
  induction lines as [|l lines IH]; simpl; intros tank_strs map_strs H;
    [assumption|].
  apply IH.
  destruct (re_match (p_map) l) as [m|]; [|assumption].
  destruct (String.eqb_spec (group m 2) "Macragge") as [E|Hne]; simpl;
    [assumption|].
  intros k v Hin. apply In_dict_set in Hin as [Heq|Hin].
  - injection Heq as _ ->. assumption.
  - now apply (H k).
Qed.

End ReadUserStrs.

Lemma In_dict_map {A B} (f : A -> B) (d : dict A) (k : string) (v : B) :
  In (k, v) (dict_map f d) -> exists a, In (k, a) d /\ v = f a.
Proof.
  unfold dict_map. intros H. apply in_map_iff in H as [[k0 a] [E H]].
  simpl in E. injection E as -> <-. now exists a.
Qed.

(** C8: no entry of the map-string table the reader returns has the text
    "Macragge", and the maps catalog written from it when no prior maps
    file exists has no such entry either. *)
Theorem macragge_excluded (unicode_word : ascii -> bool) (fs : filesystem)
    (blitz_app_base : string) (tank_strs map_strs : dict string)
    (ev : list event) :
  read_user_strs unicode_word fs blitz_app_base =
    (Ok (tank_strs, map_strs), ev) ->
  (forall k v, In (k, v) map_strs -> v <> "Macragge") /\
  (forall file, exists members,
     merge_maps file None map_strs = (Ok members, []) /\
     forall k v, In (k, v) members -> v <> PStr "Macragge").
Proof.
  unfold read_user_strs. intros H.
  destruct (rbind _ _) as [content|err]; [|discriminate].
  injection H as H _.
  assert (Hno : no_macragge map_strs).
  { pose proof (read_lines_no_macragge unicode_word (file_lines content)
                  [] []) as Hinv.
    rewrite H in Hinv. apply Hinv. intros k v []. }
  split; [exact Hno|].
  intros file. eexists. split; [reflexivity|].
  intros k v Hin. unfold dumps_members in Hin.
  apply sorted_In in Hin. apply In_dict_update in Hin as [[]|Hin].
  apply In_dict_map in Hin as [a [Ha ->]].
  intros E. injection E as E. now apply (Hno k a).
Qed.

Lemma macragge_excluded_witness :
  read_user_strs ascii_word fs_strings_only "." =
    (Ok ([("#ussr_vehicles:T-34", "T-34")], [("desert", "Desert Sands")]),
     []) /\
  (forall k v, In (k, v) [("desert", "Desert Sands")] -> v <> "Macragge") /\
  (forall file, exists members,
     merge_maps file None [("desert", "Desert Sands")] = (Ok members, []) /\
     forall k v, In (k, v) members -> v <> PStr "Macragge").
Proof.
  split; [vm_compute; reflexivity|].
  apply (macragge_excluded ascii_word fs_strings_only "."
           [("#ussr_vehicles:T-34", "T-34")] [("desert", "Desert Sands")] []).
  vm_compute. reflexivity.
Defined.

(** ** The name resolver *)

Lemma store_get_set_eq (l : loc) (d : dict pyval) (h : store) :
  store_set l d h l = d.
Proof. unfold store_set. now rewrite Nat.eqb_refl. Qed.

Lemma store_get_set_ne (l l' : loc) (d : dict pyval) (h : store) :
  l' <> l -> store_set l d h l' = h l'.
Proof.
  intros Hne. unfold store_set.
  destruct (Nat.eqb_spec l' l); [congruence|reflexivity].
Qed.

Section CopyItems.
Context {V : Type}.
Implicit Types (d acc : dict V).

Lemma copy_items_spec d keys acc :
  (forall k, In k keys -> In k (dict_keys d)) ->
  exists tmp,
    copy_items d keys acc = Ok tmp /\
    (forall k, In k keys -> dict_get k tmp = dict_get k d) /\
    (forall k, ~ In k keys -> dict_get k tmp = dict_get k acc).
Proof.
  revert acc. induction keys as [|k0 keys IH]; simpl; intros acc Hin.
  - exists acc. repeat split; tauto.
  - unfold getitem.
    destruct (dict_get k0 d) as [v|] eqn:E.
    2:{ apply dict_get_None in E. exfalso. apply E, Hin. now left. }
    simpl.
    destruct (IH (dict_set k0 v acc)) as [tmp [Htmp [H1 H2]]].
    { intros k Hk. apply Hin. now right. }
    exists tmp. split; [assumption|]. split.
    + intros k [->|Hk].
      * destruct (in_dec string_dec k keys) as [Hk|Hk]; [now apply H1|].
        rewrite H2 by assumption. rewrite dict_get_set_eq. now symmetry.
      * now apply H1.
    + intros k Hk. rewrite H2 by tauto.
      apply dict_get_set_ne. intros ->. tauto.
Qed.

Lemma copy_items_keys d keys acc tmp :
  copy_items d keys acc = Ok tmp ->
  NoDup keys -> (forall k, In k keys -> ~ In k (dict_keys acc)) ->
  dict_keys tmp = (dict_keys acc ++ keys)%list.
Proof.
  revert acc. induction keys as [|k0 keys IH]; simpl; intros acc H Hnd Hdis.
  - injection H as <-. now rewrite app_nil_r.
  - destruct (getitem k0 d) as [v|]; [simpl in H|discriminate].
    inversion Hnd as [|? ? Hnotin Hnd']; subst.
    assert (Hk0 : dict_get k0 acc = None).
    { apply dict_get_None. apply Hdis. now left. }
    rewrite (IH _ H Hnd').
    + rewrite dict_keys_set. unfold dict_mem. rewrite Hk0.
      now rewrite <- app_assoc.
    + intros k Hk. rewrite dict_keys_set. unfold dict_mem. rewrite Hk0.
      rewrite in_app_iff. simpl. intros [Hin|[->|[]]]; [|tauto].
      apply (Hdis k); [now right|assumption].
Qed.

End CopyItems.

(** The copy of lines 185-187: same bindings, keys in increasing order. *)
Lemma sorted_copy (d : dict pyval) :
  dict_wf d ->
  exists tank_tmp,
    copy_items d (sorted_str (dict_keys d)) [] = Ok tank_tmp /\
    (forall k, dict_get k tank_tmp = dict_get k d) /\
    increasing_str (dict_keys tank_tmp).
Proof.
  intros Hwf.
  destruct (copy_items_spec d (sorted_str (dict_keys d)) [])
    as [tmp [Htmp [H1 H2]]].
  { intros k Hk. now apply sorted_In in Hk. }
  exists tmp. split; [assumption|]. split.
  - intros k. destruct (in_dec string_dec k (dict_keys d)) as [Hk|Hk].
    + apply H1. now apply sorted_In.
    + rewrite H2 by (intros Hs; now apply sorted_In in Hs).
      symmetry. now apply dict_get_None.
  - assert (Hnd : NoDup (sorted_str (dict_keys d))).
    { eapply Permutation_NoDup; [apply sorted_perm|exact Hwf]. }
    rewrite (copy_items_keys _ _ _ _ Htmp Hnd) by (intros k _ []).
    simpl. unfold increasing_str.
    rewrite <- (map_id (sorted_str (dict_keys d))).
    apply (sorted_strict (fun x => x) (fun a b => String.leb a b = true)).
    + intros a b. apply string_leb_ltb.
    + apply sorted_sorted; [apply String.leb_total|].
      intros a b c. apply string_leb_trans.
    + now rewrite map_id.
Qed.
Lemma str_split_nonempty (sep : ascii) (s : string) : str_split sep s <> [].
Proof.
  destruct s as [|c s]; simpl; [discriminate|].
  destruct (Ascii.eqb c sep); [discriminate|].
  destruct (str_split sep s); discriminate.
Qed.

Lemma str_split_no_sep (sep : ascii) (s : string) :
  ~ has_char sep s -> str_split sep s = [s].
Proof.
  unfold has_char. induction s as [|c s IH]; simpl; intros H; [reflexivity|].
  destruct (Ascii.eqb_spec c sep) as [->|Hne]; [tauto|].
  rewrite IH by tauto. reflexivity.
Qed.

Lemma str_split_has_sep (sep : ascii) (s : string) :
  has_char sep s -> exists a b rest, str_split sep s = a :: b :: rest.
Proof.
  unfold has_char. induction s as [|c s IH]; simpl; intros H; [tauto|].
  destruct (Ascii.eqb_spec c sep) as [->|Hne].
  - destruct (str_split sep s) as [|b rest] eqn:E.
    + now apply str_split_nonempty in E.
    + now exists EmptyString, b, rest.
  - destruct H as [H|H]; [congruence|].
    destruct (IH H) as [a [b [rest ->]]]. now exists (String c a), b, rest.
Qed.

Section Resolver.
Variable repr : pyval -> string.
Variable tank_strs : dict string.

Lemma try_body_eq (tank : loc) (st : cstate) :
  try_body repr tank_strs tank st =
  match getitem "userStr" (heap st tank) with
  | Raise e => (Raise e, st)
  | Ok u =>
    match resolve_name tank_strs u with
    | Raise e => (Raise e, st)
    | Ok name =>
       let d1 := dict_set "name" (PStr name) (heap st tank) in
       let d := dict_pop "userStr" d1 in
       let h := store_set tank d (store_set tank d1 (heap st)) in
       match copy_items d (sorted_str (dict_keys d)) [] with
       | Raise e => (Raise e, {| heap := h; tankopedia := tankopedia st |})
       | Ok tank_tmp =>
           match getitem "tank_id" d with
           | Raise e => (Raise e, {| heap := h; tankopedia := tankopedia st |})
           | Ok id =>
               (Ok tt,
                {| heap := h;
                   tankopedia :=
                     dict_set (str_of repr id) tank_tmp (tankopedia st) |})
           end
       end
    end
  end.
Proof.
  unfold try_body, bind, tank_getitem, lift, resolve_name.
  destruct (getitem "userStr" (heap st tank)) as [u|e] eqn:Eu; [|reflexivity].
  destruct (contains tank_strs u) as [[|]|e]; simpl; rewrite ?Eu.
  - destruct (lookup tank_strs u) as [text|e]; simpl; [|reflexivity].
    unfold tank_copy, tankopedia_setitem. simpl. rewrite !store_get_set_eq.
    destruct (copy_items _ _ _); [|reflexivity].
    destruct (getitem "tank_id" _); reflexivity.
  - destruct (split_of u ":") as [parts|e]; simpl; [|reflexivity].
    destruct (index parts 1) as [part|e]; simpl; [|reflexivity].
    unfold tank_copy, tankopedia_setitem. simpl. rewrite !store_get_set_eq.
    destruct (copy_items _ _ _); [|reflexivity].
    destruct (getitem "tank_id" _); reflexivity.
  - reflexivity.
Qed.

(** The name of a str key: the table's text, else the second segment. *)
Lemma resolve_name_str (key : string) :
  (dict_get key tank_strs = None -> has_char ":" key) ->
  resolve_name tank_strs (PStr key) =
  Ok match dict_get key tank_strs with
     | Some text => text
     | None => nth 1 (str_split ":" key) ""
     end.
Proof.
  intros H. unfold resolve_name, contains, lookup, dict_mem, getitem. simpl.
  destruct (dict_get key tank_strs) as [text|]; simpl; [reflexivity|].
  destruct (str_split_has_sep ":" key (H eq_refl)) as [a [b [rest ->]]].
  reflexivity.
Qed.

Lemma resolve_name_fails (key : string) :
  dict_get key tank_strs = None -> ~ has_char ":" key ->
  resolve_name tank_strs (PStr key) = Raise IndexError.
Proof.
  intros H Hno. unfold resolve_name, contains, lookup, dict_mem. simpl.
  rewrite H. simpl. now rewrite str_split_no_sep.
Qed.

(** A turn of the loop writes to the vehicle it processes only. *)
Lemma try_body_frame (tank l : loc) (st : cstate) :
  l <> tank -> heap (snd (try_body repr tank_strs tank st)) l = heap st l.
Proof.
  intros Hne. rewrite try_body_eq.
  destruct (getitem "userStr" _); [|reflexivity].
  destruct (resolve_name _ _); [|reflexivity]. cbv zeta.
  destruct (copy_items _ _ _); [destruct (getitem "tank_id" _)|]; simpl;
    now rewrite !store_get_set_ne.
Qed.

Lemma try_body_wf (tank : loc) (st : cstate) :
  (forall l, dict_wf (heap st l)) ->
  forall l, dict_wf (heap (snd (try_body repr tank_strs tank st)) l).
Proof.
  intros Hwf l. rewrite try_body_eq.
  destruct (getitem "userStr" _); [|apply Hwf].
  destruct (resolve_name _ _); [|apply Hwf]. cbv zeta.
  assert (H : dict_wf (store_set tank
            (dict_pop "userStr" (dict_set "name" (PStr a0) (heap st tank)))
            (store_set tank (dict_set "name" (PStr a0) (heap st tank))
               (heap st)) l)).
  { destruct (Nat.eq_dec l tank) as [->|Hne].
    - rewrite store_get_set_eq. apply dict_pop_wf, dict_set_wf, Hwf.
    - rewrite !store_get_set_ne by assumption. apply Hwf. }
  destruct (copy_items _ _ _); [destruct (getitem "tank_id" _)|]; exact H.
Qed.

End Resolver.

Section ResolverLoop.
Variable repr : pyval -> string.
Variable tank_strs : dict string.

Lemma convert_one_frame (tank l : loc) (st : cstate) :
  l <> tank -> heap (fst (convert_one repr tank_strs tank st)) l = heap st l.
Proof.
  intros Hne. unfold convert_one.
  pose proof (try_body_frame repr tank_strs tank l st Hne) as H.
  destruct (try_body repr tank_strs tank st) as [[[]|e] st']; exact H.
Qed.

Lemma convert_one_wf (tank : loc) (st : cstate) :
  (forall l, dict_wf (heap st l)) ->
  forall l, dict_wf (heap (fst (convert_one repr tank_strs tank st)) l).
Proof.
  intros Hwf l. unfold convert_one.
  pose proof (try_body_wf repr tank_strs tank st Hwf l) as H.
  destruct (try_body repr tank_strs tank st) as [[[]|e] st']; exact H.
Qed.

Lemma tank_loop_wf (tanklist : list loc) (st : cstate) :
  (forall l, dict_wf (heap st l)) ->
  forall l, dict_wf (heap (fst (tank_loop repr tank_strs tanklist st)) l).
Proof.
  revert st. induction tanklist as [|tank rest IH]; simpl; intros st Hwf;
    [assumption|].
  pose proof (convert_one_wf tank st Hwf) as H1.
  destruct (convert_one repr tank_strs tank st) as [st1 ev1].
  specialize (IH st1 H1).
  destruct (tank_loop repr tank_strs rest st1) as [st2 ev2]. exact IH.
Qed.

Lemma tank_loop_app (l1 l2 : list loc) (st : cstate) :
  tank_loop repr tank_strs (l1 ++ l2) st =
  let '(st1, ev1) := tank_loop repr tank_strs l1 st in
  let '(st2, ev2) := tank_loop repr tank_strs l2 st1 in
  (st2, (ev1 ++ ev2)%list).
Proof.
  revert st. induction l1 as [|tank l1 IH]; simpl; intros st.
  - destruct (tank_loop repr tank_strs l2 st). reflexivity.
  - destruct (convert_one repr tank_strs tank st) as [st1 ev1].
    rewrite IH.
    destruct (tank_loop repr tank_strs l1 st1) as [st2 ev2].
    destruct (tank_loop repr tank_strs l2 st2) as [st3 ev3].
    now rewrite app_assoc.
Qed.

(** A vehicle whose name cannot be resolved: its turn changes nothing and
    reports it. *)
Lemma convert_one_unresolvable (bad : loc) (key : string) (st : cstate) :
  dict_get "userStr" (heap st bad) = Some (PStr key) ->
  dict_get key tank_strs = None -> ~ has_char ":" key ->
  convert_one repr tank_strs bad st = (st, [ErrorCouldNotProcess (heap st bad)]).
Proof.
  intros Hu Hk Hno. unfold convert_one. rewrite try_body_eq.
  unfold getitem. rewrite Hu. now rewrite resolve_name_fails.
Qed.

Lemma tank_loop_keeps_unresolvable (bad : loc) (key : string)
    (tanklist : list loc) (st : cstate) :
  dict_get "userStr" (heap st bad) = Some (PStr key) ->
  dict_get key tank_strs = None -> ~ has_char ":" key ->
  heap (fst (tank_loop repr tank_strs tanklist st)) bad = heap st bad.
Proof.
  intros Hu Hk Hno. revert st Hu.
  induction tanklist as [|tank rest IH]; simpl; intros st Hu; [reflexivity|].
  destruct (Nat.eq_dec bad tank) as [<-|Hne].
  - rewrite (convert_one_unresolvable bad key st Hu Hk Hno).
    specialize (IH st Hu).
    destruct (tank_loop repr tank_strs rest st). exact IH.
  - pose proof (convert_one_frame tank bad st Hne) as Hf.
    destruct (convert_one repr tank_strs tank st) as [st1 ev1].
    simpl in Hf. rewrite <- Hf in Hu. specialize (IH st1 Hu).
    destruct (tank_loop repr tank_strs rest st1). simpl in *. congruence.
Qed.

(** A vehicle without a ['userStr'] key is left as it is. *)
Lemma convert_one_no_userStr (tank l : loc) (st : cstate) :
  dict_get "userStr" (heap st l) = None ->
  heap (fst (convert_one repr tank_strs tank st)) l = heap st l.
Proof.
  intros Hu. destruct (Nat.eq_dec l tank) as [->|Hne].
  - unfold convert_one. rewrite try_body_eq. unfold getitem. now rewrite Hu.
  - now apply convert_one_frame.
Qed.

Lemma tank_loop_no_userStr (tanklist : list loc) (l : loc) (st : cstate) :
  dict_get "userStr" (heap st l) = None ->
  heap (fst (tank_loop repr tank_strs tanklist st)) l = heap st l.
Proof.
  revert st. induction tanklist as [|tank rest IH]; simpl; intros st Hu;
    [reflexivity|].
  pose proof (convert_one_no_userStr tank l st Hu) as H1.
  destruct (convert_one repr tank_strs tank st) as [st1 ev1]. simpl in H1.
  rewrite <- H1 in Hu. specialize (IH st1 Hu).
  destruct (tank_loop repr tank_strs rest st1). simpl in *. congruence.
Qed.

End ResolverLoop.

Lemma sorted_copy_get (d : dict pyval) :
  exists tank_tmp,
    copy_items d (sorted_str (dict_keys d)) [] = Ok tank_tmp /\
    forall k, dict_get k tank_tmp = dict_get k d.
Proof.
  destruct (copy_items_spec d (sorted_str (dict_keys d)) [])
    as [tmp [Htmp [H1 H2]]].
  { intros k Hk. now apply sorted_In in Hk. }
  exists tmp. split; [assumption|].
  intros k. destruct (in_dec string_dec k (dict_keys d)) as [Hk|Hk].
  - apply H1. now apply sorted_In.
  - rewrite H2 by (intros Hs; now apply sorted_In in Hs).
    symmetry. now apply dict_get_None.
Qed.



(** C10: the conversion changes its input records in place.  For a record
    whose turn of the loop completes without an exception, the dict the
    caller's list refers to has, when the function is done, no ['userStr']
    key and a ['name'] key; the tankopedia got, at that turn, a separate
    dict with the same bindings and its keys in increasing order. *)
Theorem records_mutated_in_place (repr : pyval -> string)
    (tank_strs : dict string) (h : store) (pre post : list loc) (tank : loc) :
  (forall l, dict_wf (h l)) ->
  let st1 := fst (tank_loop repr tank_strs pre (init_state h)) in
  let st2 := snd (try_body repr tank_strs tank st1) in
  fst (try_body repr tank_strs tank st1) = Ok tt ->
  let h' :=
    snd (fst (convert_tank_names repr (pre ++ tank :: post) tank_strs h)) in
  dict_get "userStr" (h' tank) = None /\
  (exists name, dict_get "name" (h' tank) = Some (PStr name)) /\
  exists id tank_tmp,
    dict_get "tank_id" (h' tank) = Some id /\
    tankopedia st2 = dict_set (str_of repr id) tank_tmp (tankopedia st1) /\
    (forall k, dict_get k tank_tmp = dict_get k (h' tank)) /\
    increasing_str (dict_keys tank_tmp).
Proof.
  intros Hwf. cbv zeta. unfold convert_tank_names.
  fold (init_state h). rewrite tank_loop_app. simpl tank_loop.
  pose proof (tank_loop_wf repr tank_strs pre (init_state h) Hwf) as Hwf1.
  destruct (tank_loop repr tank_strs pre (init_state h)) as [st1 ev1].
  simpl fst in *. unfold convert_one. rewrite try_body_eq.
  destruct (getitem "userStr" (heap st1 tank)) as [u|]; [|discriminate].
  destruct (resolve_name tank_strs u) as [name|]; [|discriminate].
  cbv zeta.
  set (d := dict_pop "userStr" (dict_set "name" (PStr name) (heap st1 tank))).
  assert (Hwfd : dict_wf d) by (apply dict_pop_wf, dict_set_wf, Hwf1).
  destruct (sorted_copy d Hwfd) as [tmp [Htmp [Hget Hinc]]]. rewrite Htmp.
  unfold getitem. destruct (dict_get "tank_id" d) as [id|] eqn:Eid;
    [|discriminate].
  intros _. simpl snd.
  set (st2 := {| heap := _; tankopedia := _ |}).
  assert (Hst2 : heap st2 tank = d) by (simpl; apply store_get_set_eq).
  assert (Hno : dict_get "userStr" d = None)
    by (apply dict_get_pop_eq, dict_set_wf, Hwf1).
  pose proof (tank_loop_no_userStr repr tank_strs post tank st2) as Hp.
  rewrite Hst2 in Hp. specialize (Hp Hno).
  destruct (tank_loop repr tank_strs post st2) as [st3 ev3]. simpl in Hp.
  assert (Hh' : forall r : result (dict (dict pyval) * dict string) *
                          store * list event,
            snd (fst r) = heap st3 ->
            dict_get "userStr" (snd (fst r) tank) = None /\
            (exists name0, dict_get "name" (snd (fst r) tank) =
                           Some (PStr name0)) /\
            exists id0 tank_tmp,
              dict_get "tank_id" (snd (fst r) tank) = Some id0 /\
              tankopedia st2 =
                dict_set (str_of repr id0) tank_tmp (tankopedia st1) /\
              (forall k, dict_get k tank_tmp =
                         dict_get k (snd (fst r) tank)) /\
              increasing_str (dict_keys tank_tmp)).
  { intros r ->. rewrite Hp. split; [assumption|]. split.
    - exists name. unfold d. rewrite dict_get_pop_ne by discriminate.
      apply dict_get_set_eq.
    - exists id, tmp. repeat split; assumption. }
  destruct (rbind _ _); apply Hh'; reflexivity.
Qed.

Lemma records_mutated_in_place_witness :
  let h' :=
    snd (fst (convert_tank_names sample_repr ([] ++ 0%nat :: [0%nat]) []
                (alloc [tank_T34]))) in
  dict_get "userStr" (h' 0%nat) = None /\
  (exists name, dict_get "name" (h' 0%nat) = Some (PStr name)) /\
  exists id tank_tmp,
    dict_get "tank_id" (h' 0%nat) = Some id /\
    tankopedia (snd (try_body sample_repr [] 0%nat
                       (init_state (alloc [tank_T34])))) =
      dict_set (str_of sample_repr id) tank_tmp [] /\
    (forall k, dict_get k tank_tmp = dict_get k (h' 0%nat)) /\
    increasing_str (dict_keys tank_tmp).
Proof.
  apply (records_mutated_in_place sample_repr [] (alloc [tank_T34])
           [] [0%nat] 0%nat).
  - intros [|[|l]]; unfold alloc, dict_wf; simpl;
      repeat constructor; simpl; intuition discriminate.
  - reflexivity.
Defined.

(** ** The user-string filter *)

Lemma run_lit (p : string) (r : regex) (pos : nat) (s : string)
    (caps : captures) :
  String.prefix p s = false -> run (lit p ++ r)%list pos s caps = None.
Proof.
  revert pos s. induction p as [|c p IH]; intros pos [|a s]; simpl;
    try discriminate; try reflexivity.
  destruct (ascii_dec c a) as [->|Hne]; intros H.
  - rewrite Ascii.eqb_refl. now apply IH.
  - destruct (Ascii.eqb_spec c a); [congruence|reflexivity].
Qed.

Lemma run_lit_prefix (p : string) (pos : nat) (s : string) (caps : captures) :
  String.prefix p s = true -> run (lit p) pos s caps = Some caps.
Proof.
  revert pos s. induction p as [|c p IH]; intros pos [|a s]; simpl;
    try discriminate; try reflexivity.
  destruct (ascii_dec c a) as [->|Hne]; [|discriminate]. intros H.
  rewrite Ascii.eqb_refl. now apply IH.
Qed.

Lemma prefix_cons (c a : ascii) (p s : string) :
  String.prefix (String c p) (String a s) =
  if ascii_dec c a then String.prefix p s else false.
Proof. reflexivity. Qed.

Lemma prefix_empty (s : string) : String.prefix "" s = true.
Proof. destruct s; reflexivity. Qed.

Lemma match_bol_lit (p key : string) :
  match re_match (Bol :: lit p) key with Some _ => true | None => false end =
  String.prefix p key.
Proof.
  unfold re_match. simpl.
  destruct (String.prefix p key) eqn:E.
  - now rewrite run_lit_prefix.
  - rewrite <- (app_nil_r (lit p)). now rewrite run_lit.
Qed.

(** What the filter of lines 196-203 decides: [p.match] looks for the
    pattern at the start of the key only, so the pattern [_short$] can
    match no key that [^_] does not match already. *)
Lemma skip_key_prefix (key : string) :
  skip_key re_strs key =
  (String.prefix "Chassis_" key || String.prefix "Turret_" key
   || String.prefix "_" key)%bool.
Proof.
  unfold re_strs, skip_key.
  pose proof (match_bol_lit "Chassis_" key) as H1.
  pose proof (match_bol_lit "Turret_" key) as H2.
  pose proof (match_bol_lit "_" key) as H3.
  destruct (re_match (Bol :: lit "Chassis_") key); rewrite <- H1;
    [reflexivity|].
  destruct (re_match (Bol :: lit "Turret_") key); rewrite <- H2;
    [reflexivity|].
  destruct (re_match (Bol :: lit "_") key); rewrite <- H3; [reflexivity|].
  unfold re_match.
  rewrite (run_lit "_short" [Eol]); [reflexivity|].
  destruct key as [|a key]; [reflexivity|].
  rewrite prefix_cons in H3 |- *.
  destruct (ascii_dec "_" a); [|reflexivity].
  rewrite prefix_empty in H3. discriminate H3.
Qed.

(** C3 (the code at the failing input): of the short keys Chassis_Foo,
    Turret_Bar, _Baz, Something_short and Foo the filter drops the first
    three only; Something_short is kept in the user strings next to Foo. *)
Theorem short_suffix_not_filtered (repr : pyval -> string) (h : store) :
  skip_key re_strs "Something_short" = false /\
  fst (fst (convert_tank_names repr [] sample_tank_strs h)) =
  Ok ([], [("Foo", "e"); ("Something_short", "d")]).
Proof. split; reflexivity. Qed.

(** ** A nation without a vehicle list *)

Lemma extract_tanks_missing_file (parse : string -> result pyval)
    (wg : option WG) (fs : filesystem) (blitz_app_base nation : string) :
  let base :=
    if isdir fs (path_join blitz_app_base ["assets"])
    then path_join blitz_app_base ["assets"] else blitz_app_base in
  let list_xml_file :=
    path_join base [BLITZAPP_VEHICLES_DIR; nation; BLITZAPP_VEHICLE_FILE] in
  isfile fs list_xml_file = false ->
  extract_tanks parse wg fs blitz_app_base nation =
  (Ok None, [Printed ("ERROR: cannot open " ++ list_xml_file)]).
Proof.
  intros base list_xml_file H. unfold extract_tanks.
  fold base. fold list_xml_file. now rewrite H.
Qed.

Lemma extend_all_None (tanklist : list (dict pyval))
    (results : list (option (list (dict pyval)))) :
  In None results -> extend_all tanklist results = Raise TypeError.
Proof.
  revert tanklist. induction results as [|[l|] rest IH]; simpl;
    intros tanklist H; [tauto| |reflexivity].
  destruct H as [H|H]; [discriminate|]. now apply IH.
Qed.

Lemma gather_tanks_In (parse : string -> result pyval) (wg : option WG)
    (fs : filesystem) (blitz_app_base : string) (nations : list string)
    (results : list (option (list (dict pyval)))) (nation : string) :
  fst (gather_tanks parse wg fs blitz_app_base nations) = Ok results ->
  In nation nations ->
  exists r, fst (extract_tanks parse wg fs blitz_app_base nation) = Ok r /\
            In r results.
Proof.
  revert results. induction nations as [|n nations IH]; simpl;
    intros results H Hin; [tauto|].
  destruct (extract_tanks parse wg fs blitz_app_base n) as [[r|e] ev] eqn:E;
    [|discriminate H].
  destruct (gather_tanks parse wg fs blitz_app_base nations)
    as [[rs|e] ev'] eqn:Eg; [simpl in H|discriminate H].
  injection H as <-. destruct Hin as [->|Hin].
  - exists r. rewrite E. split; [reflexivity|now left].
  - destruct (IH rs eq_refl Hin) as [r' [Hr' Hin']].
    exists r'. split; [assumption|now right].
Qed.

(** Whenever the tasks all return and the vehicle list of some nation is
    absent, [main] ends with the TypeError of [tanklist.extend(None)]. *)
Lemma missing_file_raises_TypeError (parse : string -> result pyval)
    (wg : option WG) (fs : filesystem) (blitz_app_base : string)
    (nations : list string)
    (results : list (option (list (dict pyval)))) (nation : string) :
  fst (gather_tanks parse wg fs blitz_app_base nations) = Ok results ->
  In nation nations ->
  fst (extract_tanks parse wg fs blitz_app_base nation) = Ok None ->
  fst (main_tanklist parse wg fs blitz_app_base nations) = Raise TypeError.
Proof.
  intros Hg Hin Hnone. unfold main_tanklist.
  destruct (gather_tanks_In parse wg fs blitz_app_base nations results nation
              Hg Hin) as [r [Hr Hinr]].
  rewrite Hnone in Hr. injection Hr as <-.
  destruct (gather_tanks parse wg fs blitz_app_base nations) as [rs ev].
  simpl in Hg. subst rs. simpl. now apply extend_all_None.
Qed.

(** C2 (the code at the failing input): with the vehicle list of
    "germany" and "usa" absent, the extractor prints the missing path and
    returns None, not an empty list; [tanklist.extend(None)] then raises
    TypeError and [main] ends with it, the records of "ussr" are lost. *)
Theorem missing_nation_aborts_run (unicode_word : ascii -> bool)
    (repr : pyval -> string) (tanks_file maps_file : string)
    (prior_tanks prior_maps : prior_file) :
  extract_tanks sample_parse (Some wg_sample) fs_ussr_only "." "germany" =
    (Ok None,
     [Printed
        "ERROR: cannot open ./Data/XML/item_defs/vehicles/germany/list.xml"])
  /\
  (exists tank,
     extract_tanks sample_parse (Some wg_sample) fs_ussr_only "." "ussr" =
       (Ok (Some [tank]), [])) /\
  fst (main_tanklist sample_parse (Some wg_sample) fs_ussr_only "."
         (NATION wg_sample)) = Raise TypeError /\
  fst (main unicode_word repr sample_parse wg_sample fs_ussr_only "."
         tanks_file maps_file prior_tanks prior_maps) = Raise TypeError.
Proof.
  split; [reflexivity|]. split; [eexists; reflexivity|].
  split; reflexivity.
Qed.

(** ** [int] reads back what [str] writes *)

Lemma digit_facts (c : ascii) :
  is_digit c = true ->
  is_space c = false /\ Ascii.eqb c "-" = false /\ Ascii.eqb c "+" = false /\
  Ascii.eqb c "_" = false.
Proof.
  destruct c as [[] [] [] [] [] [] [] []]; vm_compute; intros H;
    try discriminate H; repeat split.
Qed.

Lemma string_of_uint_digits (d : Decimal.uint) :
  all_digits (NilEmpty.string_of_uint d).
Proof.
  unfold all_digits.
  induction d; simpl; constructor; try assumption; reflexivity.
Qed.

Lemma string_of_uint_nonempty (d : Decimal.uint) :
  d <> Decimal.Nil -> NilEmpty.string_of_uint d <> EmptyString.
Proof. destruct d; simpl; congruence. Qed.

Lemma rstrip_digits (s : string) : all_digits s -> rstrip s = s.
Proof.
  unfold all_digits. induction s as [|c s IH]; simpl; intros H; [reflexivity|].
  inversion H as [|? ? Hc Hs]; subst. rewrite (IH Hs).
  destruct s; [|reflexivity].
  destruct (digit_facts c Hc) as [-> _]. reflexivity.
Qed.

Lemma rstrip_cons (a : ascii) (s : string) :
  rstrip s = s -> s <> EmptyString -> rstrip (String a s) = String a s.
Proof.
  intros H Hne. change (rstrip (String a s)) with
    (match rstrip s with
     | EmptyString => if is_space a then EmptyString else String a EmptyString
     | r => String a r
     end).
  rewrite H. destruct s; [congruence|reflexivity].
Qed.

Lemma digits_of_digits (s : string) :
  all_digits s -> digits_of true s = Some s.
Proof.
  unfold all_digits. induction s as [|c s IH]; simpl; intros H; [reflexivity|].
  inversion H as [|? ? Hc Hs]; subst.
  destruct (digit_facts c Hc) as [_ [_ [_ ->]]]. rewrite Hc.
  now rewrite (IH Hs).
Qed.

Lemma int_of_digits (d : Decimal.uint) :
  d <> Decimal.Nil ->
  int_of_str (NilEmpty.string_of_uint d) = Ok (Z.of_uint d) /\
  int_of_str (String "-" (NilEmpty.string_of_uint d)) = Ok (- Z.of_uint d).
Proof.
  intros Hd.
  pose proof (string_of_uint_digits d) as Hall.
  pose proof (string_of_uint_nonempty d Hd) as Hne.
  pose proof (NilEmpty.usu d) as Husu.
  destruct (NilEmpty.string_of_uint d) as [|c s] eqn:E; [congruence|].
  assert (Hc : is_digit c = true) by (inversion Hall; assumption).
  destruct (digit_facts c Hc) as [Hsp [Hm [Hp Hu]]].
  assert (Hd1 : digits_of false (String c s) = Some (String c s)).
  { simpl. rewrite Hu, Hc.
    inversion Hall as [|? ? _ Hs]; subst.
    now rewrite (digits_of_digits s Hs). }
  split.
  - unfold int_of_str. change (lstrip (String c s)) with
      (if is_space c then lstrip s else String c s).
    rewrite Hsp, (rstrip_digits _ Hall), Hm, Hp, Hd1, Husu. reflexivity.
  - unfold int_of_str.
    change (lstrip (String "-" (String c s))) with (String "-" (String c s)).
    assert (Hr : rstrip (String "-" (String c s)) = String "-" (String c s))
      by (apply rstrip_cons; [apply (rstrip_digits _ Hall)|discriminate]).
    rewrite Hr. change (Ascii.eqb "-" "-") with true. cbv iota.
    rewrite Hd1, Husu. reflexivity.
Qed.

Lemma to_uint_not_nil (p : positive) : Pos.to_uint p <> Decimal.Nil.
Proof.
  intros E. pose proof (DecimalPos.Unsigned.of_to p) as H.
  rewrite E in H. discriminate H.
Qed.

Lemma nilzero_string_of_uint (d : Decimal.uint) :
  d <> Decimal.Nil -> NilZero.string_of_uint d = NilEmpty.string_of_uint d.
Proof. destruct d; [congruence|reflexivity..]. Qed.

Lemma int_of_str_of_int (z : Z) : int_of_str (str_of_int z) = Ok z.
Proof.
  destruct z as [|p|p]; [reflexivity| |]; unfold str_of_int;
    simpl Z.to_int; simpl NilZero.string_of_int;
    rewrite (nilzero_string_of_uint _ (to_uint_not_nil p)).
  - rewrite (proj1 (int_of_digits _ (to_uint_not_nil p))). f_equal.
    change (Z.of_uint (Pos.to_uint p)) with (Z.of_int (Z.to_int (Z.pos p))).
    apply DecimalZ.of_to.
  - rewrite (proj2 (int_of_digits _ (to_uint_not_nil p))). f_equal.
    change (- Z.of_uint (Pos.to_uint p)) with (Z.of_int (Z.to_int (Z.neg p))).
    apply DecimalZ.of_to.
Qed.

(** ** The order of the written catalogs *)

Lemma mapM_Forall2 {A B} (f : A -> result B) (l : list A) (ys : list B) :
  mapM f l = Ok ys <-> Forall2 (fun x y => f x = Ok y) l ys.
Proof.
  revert ys. induction l as [|x l IH]; simpl; intros ys.
  - split; [intros [= <-]; constructor | intros H; inversion H; reflexivity].
  - split.
    + destruct (f x) as [y|] eqn:Ey; [simpl|discriminate].
      destruct (mapM f l) as [ys'|]; [simpl|discriminate].
      intros [= <-]. constructor; [assumption|]. now apply IH.
    + intros H. inversion H as [|? y ? ys' Hy Hys]; subst.
      rewrite Hy. simpl. apply IH in Hys. rewrite Hys. reflexivity.
Qed.

Lemma StronglySorted_map {A K} (key : A -> K) (R : K -> K -> Prop)
    (l : list A) :
  StronglySorted (fun a b => R (key a) (key b)) l ->
  StronglySorted R (map key l).
Proof.
  induction 1 as [|x l Hs IH Hall]; simpl; constructor; [assumption|].
  apply Forall_forall. intros k Hk. apply in_map_iff in Hk as [y [<- Hy]].
  rewrite Forall_forall in Hall. now apply Hall.
Qed.

Lemma StronglySorted_weaken {A} (R S : A -> A -> Prop) (l : list A) :
  (forall a b, R a b -> S a b) -> StronglySorted R l -> StronglySorted S l.
Proof.
  intros HRS. induction 1 as [|x l Hs IH Hall]; constructor; [assumption|].
  eapply Forall_impl; [|exact Hall]. intros b. apply HRS.
Qed.

Section SortDict.
Context {V : Type}.

Lemma combine_keyed (d : dict V) (zs : list Z) :
  mapM int_of_str (dict_keys d) = Ok zs ->
  Forall keyed (combine zs d) /\ map snd (combine zs d) = d.
Proof.
  intros H. apply mapM_Forall2 in H. revert zs H.
  induction d as [|[k v] d IH]; simpl; intros zs H;
    inversion H as [|? z ? zs' Hz Hzs]; subst; simpl.
  - split; [constructor|reflexivity].
  - destruct (IH zs' Hzs) as [H1 H2]. split.
    + constructor; assumption.
    + now rewrite H2.
Qed.

Lemma keyed_mapM (ps : list (Z * (string * V))) :
  Forall keyed ps ->
  mapM int_of_str (dict_keys (map snd ps)) = Ok (map fst ps).
Proof.
  intros H. apply mapM_Forall2. unfold dict_keys.
  induction H as [|p ps Hp Hps IH]; simpl; constructor; assumption.
Qed.

Lemma keyed_canonical (ps : list (Z * (string * V))) :
  Forall keyed ps ->
  Forall canonical_key (dict_keys (map snd ps)) ->
  dict_keys (map snd ps) = map str_of_int (map fst ps).
Proof.
  unfold dict_keys. intros H.
  induction H as [|p ps Hp Hps IH]; simpl; intros Hc; [reflexivity|].
  inversion Hc as [|? ? [z Hz] Hc']; subst. rewrite (IH Hc'). f_equal.
  unfold keyed in Hp. rewrite Hz, int_of_str_of_int in Hp.
  injection Hp as <-. exact Hz.
Qed.

(** The numeric sort: the keys come out in non-decreasing order of their
    ints, and in strictly increasing order when they are canonical. *)
Lemma sort_dict_number (d data : dict V) :
  sort_dict d true = Ok data ->
  Permutation d data /\
  nondecreasing_int (dict_keys data) /\
  (dict_wf d -> Forall canonical_key (dict_keys data) ->
   increasing_int (dict_keys data)).
Proof.
  unfold sort_dict.
  destruct (mapM int_of_str (dict_keys d)) as [zs|] eqn:Ezs; [simpl|discriminate].
  intros [= <-].
  destruct (combine_keyed d zs Ezs) as [Hkeyed Hsnd].
  set (le := fun a b : Z * (string * V) => Z.leb (fst a) (fst b)).
  set (ps := sorted le (combine zs d)).
  assert (Hperm : Permutation (combine zs d) ps) by apply sorted_perm.
  assert (Hkeyed' : Forall keyed ps)
    by (eapply Permutation_Forall; eassumption).
  assert (Hsorted : StronglySorted Z.le (map fst ps)).
  { apply (StronglySorted_weaken (fun x y => Z.leb x y = true));
      [intros a b; apply Z.leb_le|].
    apply (StronglySorted_map fst (fun x y => Z.leb x y = true)).
    apply (sorted_sorted le).
    - intros a b. unfold le. rewrite !Z.leb_le. lia.
    - intros a b c. unfold le. rewrite !Z.leb_le. lia. }
  assert (Hpd : Permutation d (map snd ps)).
  { rewrite <- Hsnd at 1. now apply Permutation_map. }
  split; [exact Hpd|]. split.
  - exists (map fst ps). split; [now apply keyed_mapM|exact Hsorted].
  - intros Hwf Hcan. exists (map fst ps). split; [now apply keyed_mapM|].
    assert (Hnd : NoDup (map fst ps)).
    { apply (NoDup_map_inv str_of_int).
      rewrite <- (keyed_canonical ps Hkeyed' Hcan).
      eapply Permutation_NoDup; [|exact Hwf].
      apply Permutation_map. exact Hpd. }
    rewrite <- (map_id (map fst ps)).
    apply (sorted_strict (fun x => x) Z.le); [lia| |now rewrite map_id].
    exact Hsorted.
Qed.

Lemma sort_dict_text (d data : dict V) :
  sort_dict d false = Ok data ->
  dict_wf d -> increasing_str (dict_keys data).
Proof. intros [= <-]. apply sorted_by_key_increasing. Qed.

End SortDict.

Lemma update_of_wf (v : pyval) (other merged : dict pyval) :
  pyval_wf v -> update_of v other = Ok merged -> dict_wf merged.
Proof.
  intros Hwf. destruct v; try discriminate. intros [= <-].
  apply dict_update_wf. now apply Hwf.
Qed.

(** C9 (as amended): in the written tankopedia the [data] keys parse as
    ints in non-decreasing order, and in strictly increasing order when
    every key is the canonical text of an int; the [userStr] keys and the
    keys of the maps catalog are strictly increasing in code-point
    order. *)
Theorem outputs_sorted (tanks userStrs : pyval)
    (new_tanks : dict (dict pyval)) (new_userStrs : dict string)
    (doc : tankopedia_doc) (file : string) (prior_maps : prior_file)
    (map_strs : dict string) (members : dict pyval) (ev : list event) :
  pyval_wf tanks -> pyval_wf userStrs -> prior_wf prior_maps ->
  merge_tankopedia tanks userStrs new_tanks new_userStrs = Ok doc ->
  merge_maps file prior_maps map_strs = (Ok members, ev) ->
  nondecreasing_int (dict_keys (data doc)) /\
  (Forall canonical_key (dict_keys (data doc)) ->
   increasing_int (dict_keys (data doc))) /\
  increasing_str (dict_keys (userStr doc)) /\
  increasing_str (dict_keys members).
Proof.
  intros Hwt Hwu Hwm Hdoc Hmaps.
  assert (Hm : increasing_str (dict_keys members)).
  { unfold merge_maps in Hmaps.
    assert (Hv : exists v, pyval_wf v /\
              (maps <- update_of v (dict_map PStr map_strs) ;;
               Ok (dumps_members maps true))%R = Ok members).
    { destruct prior_maps as [[v|e]|].
      - exists v. split; [now apply Hwm|]. injection Hmaps as H1 _; first [exact H1 | simpl; now rewrite H1].
      - exists (PDict []). split; [intros d [= <-]; constructor|].
        injection Hmaps as H1 _; first [exact H1 | simpl; now rewrite H1].
      - exists (PDict []). split; [intros d [= <-]; constructor|].
        injection Hmaps as H1 _; first [exact H1 | simpl; now rewrite H1]. }
    destruct Hv as [v [Hwv Hv]].
    destruct (update_of v (dict_map PStr map_strs)) as [maps|] eqn:E;
      [simpl in Hv|discriminate].
    injection Hv as <-. apply sorted_by_key_increasing.
    eapply update_of_wf; eassumption. }
  unfold merge_tankopedia in Hdoc.
  destruct (update_of tanks (dict_map PDict new_tanks)) as [tanks'|] eqn:Et;
    [cbn [rbind] in Hdoc|discriminate].
  destruct (update_of userStrs (dict_map PStr new_userStrs))
    as [userStrs'|] eqn:Eu; [cbn [rbind] in Hdoc|discriminate].
  destruct (sort_dict tanks' true) as [data'|] eqn:Ed;
    [cbn [rbind] in Hdoc|discriminate].
  change (sort_dict userStrs' false) with
    (Ok (sorted (fun a b => String.leb (fst a) (fst b)) userStrs')) in Hdoc.
  cbn [rbind] in Hdoc. injection Hdoc as <-. cbn [data userStr].
  unfold dumps_members.
  destruct (sort_dict_number tanks' data' Ed) as [_ [Hnd Hinc]].
  split; [exact Hnd|]. split; [|split; [|exact Hm]].
  - apply Hinc. exact (update_of_wf tanks _ _ Hwt Et).
  - apply sorted_by_key_increasing. exact (update_of_wf userStrs _ _ Hwu Eu).
Qed.

Lemma outputs_sorted_witness :
  merge_tankopedia prior_data prior_userStr fresh_tanks fresh_userStrs =
    Ok merged_doc /\
  nondecreasing_int ["1"; "257"; "513"] /\
  (Forall canonical_key ["1"; "257"; "513"] ->
   increasing_int ["1"; "257"; "513"]) /\
  increasing_str ["KV-1"; "T-34"] /\
  increasing_str ["canal"; "desert"].
Proof.
  split; [reflexivity|].
  apply (outputs_sorted prior_data prior_userStr fresh_tanks fresh_userStrs
           merged_doc "maps.json" None fresh_maps
           [("canal", PStr "Canal"); ("desert", PStr "Desert Sands")] []).
  - intros d [= <-]. unfold dict_wf. simpl.
    repeat constructor; simpl; intuition discriminate.
  - intros d [= <-]. unfold dict_wf. simpl.
    repeat constructor; simpl; intuition discriminate.
  - intros v H. discriminate H.
  - reflexivity.
  - reflexivity.
Defined.

(** The keys the name resolver makes from int ids are canonical. *)
Lemma int_id_key_canonical (repr : pyval -> string) (z : Z) :
  canonical_key (str_of repr (PInt z)).
Proof. now exists z. Qed.

(** C9 (as stated) fails: read back from a prior file whose [data] has
    the keys "1" and "01" and merged with nothing new, the written [data]
    keys are "1", "01", which parse to 1, 1: not strictly increasing.
    No other order of the merged keys would be strictly increasing. *)
Lemma data_keys_not_strictly_increasing :
  load_tankopedia "tanks.json" (Some (Ok prior_with_01)) =
    ((PDict [],
      PDict [("1", PDict [("name", PStr "A")]);
             ("01", PDict [("name", PStr "B")])]), []) /\
  (exists doc,
     merge_tankopedia
       (PDict [("1", PDict [("name", PStr "A")]);
               ("01", PDict [("name", PStr "B")])]) (PDict []) [] [] =
       Ok doc /\
     dict_keys (data doc) = ["1"; "01"] /\
     mapM int_of_str (dict_keys (data doc)) = Ok [1; 1] /\
     ~ increasing_int (dict_keys (data doc))) /\
  (forall merged keys,
     update_of (PDict [("1", PDict [("name", PStr "A")]);
                       ("01", PDict [("name", PStr "B")])]) [] = Ok merged ->
     Permutation (dict_keys merged) keys -> ~ increasing_int keys).
Proof.
  assert (Hno : forall keys, Permutation ["1"; "01"] keys ->
                             ~ increasing_int keys).
  { intros keys Hp [zs [Hzs Hs]].
    apply Permutation_length_2_inv in Hp as [->| ->];
      vm_compute in Hzs; injection Hzs as <-;
      inversion Hs as [|? ? _ Hall]; subst;
      inversion Hall as [|? ? Hlt _]; subst; lia. }
  split; [reflexivity|]. split.
  - eexists. split; [reflexivity|].
    split; [reflexivity|]. split; [reflexivity|].
    apply Hno. reflexivity.
  - intros merged keys [= <-]. apply Hno.
Qed.

(** ** The merge of the catalogs *)

(** C1: the merge of the catalogs is a key-wise overlay.  In the
    tankopedia [main] writes (lines 84-90) and in the maps file (lines
    104-107), every key of the new data has the new value, and every
    other key has the value the prior catalog gave it (and no value if
    it gave none); merging [{"2": B2, "3": C}] over [{"1": A, "2": B}]
    gives [{"1": A, "2": B2, "3": C}]. *)
Theorem merge_overlay (prior_tanks prior_userStrs prior_maps : dict pyval)
    (new_tanks : dict (dict pyval)) (new_userStrs map_strs : dict string)
    (file : string) (doc : tankopedia_doc) (members : dict pyval)
    (ev : list event) :
  dict_wf prior_tanks -> dict_wf prior_userStrs -> dict_wf prior_maps ->
  dict_wf new_tanks -> dict_wf new_userStrs -> dict_wf map_strs ->
  merge_tankopedia (PDict prior_tanks) (PDict prior_userStrs)
    new_tanks new_userStrs = Ok doc ->
  merge_maps file (Some (Ok (PDict prior_maps))) map_strs = (Ok members, ev) ->
  (forall k, dict_get k (data doc) =
             match dict_get k new_tanks with
             | Some record => Some (PDict record)
             | None => dict_get k prior_tanks
             end) /\
  (forall k, dict_get k (userStr doc) =
             match dict_get k new_userStrs with
             | Some text => Some (PStr text)
             | None => dict_get k prior_userStrs
             end) /\
  (forall k, dict_get k members =
             match dict_get k map_strs with
             | Some text => Some (PStr text)
             | None => dict_get k prior_maps
             end) /\
  (forall (A B : pyval) (B2 C : dict pyval),
     exists merged,
       merge_tankopedia (PDict [("1", A); ("2", B)]) (PDict [])
         [("2", B2); ("3", C)] [] = Ok merged /\
       data merged = [("1", A); ("2", PDict B2); ("3", PDict C)]) /\
  (forall (A B : pyval) (B2 C : string),
     merge_maps file (Some (Ok (PDict [("1", A); ("2", B)])))
       [("2", B2); ("3", C)] =
     (Ok [("1", A); ("2", PStr B2); ("3", PStr C)], [])).
Proof.
  intros Hpt Hpu Hpm Hnt Hnu Hms Hdoc Hmaps.
  unfold merge_tankopedia in Hdoc. cbn [update_of rbind] in Hdoc.
  destruct (sort_dict (dict_update prior_tanks (dict_map PDict new_tanks))
              true) as [data'|] eqn:Ed; [cbn [rbind] in Hdoc|discriminate].
  change (sort_dict (dict_update prior_userStrs (dict_map PStr new_userStrs))
            false)
    with (Ok (sorted (fun a b : string * pyval => String.leb (fst a) (fst b))
                (dict_update prior_userStrs (dict_map PStr new_userStrs))))
    in Hdoc.
  cbn [rbind] in Hdoc. injection Hdoc as <-. cbn [data userStr].
  unfold merge_maps in Hmaps. cbn [update_of rbind] in Hmaps.
  unfold dumps_members in *. injection Hmaps as <- _.
  destruct (sort_dict_number _ _ Ed) as [Hperm _].
  split; [|split; [|split; [|split]]].
  - intros k. rewrite (perm_dict_get _ _ k Hperm)
      by now apply dict_update_wf.
    rewrite dict_get_update by now apply dict_map_wf.
    replace (dict_get k (dict_map PDict new_tanks))
      with (option_map PDict (dict_get (V:=dict pyval) k new_tanks))
      by (symmetry; apply dict_get_map).
    now destruct (dict_get k new_tanks).
  - intros k. rewrite (perm_dict_get _ _ k (sorted_perm _ _))
      by now apply dict_update_wf.
    rewrite dict_get_update by now apply dict_map_wf.
    rewrite dict_get_map. now destruct (dict_get k new_userStrs).
  - intros k. rewrite (perm_dict_get _ _ k (sorted_perm _ _))
      by now apply dict_update_wf.
    rewrite dict_get_update by now apply dict_map_wf.
    rewrite dict_get_map. now destruct (dict_get k map_strs).
  - intros A B B2 C. eexists. split; reflexivity.
  - intros A B B2 C. reflexivity.
Qed.

Lemma merge_overlay_witness :
  let A := PDict [("name", PStr "A")] in
  let B := PDict [("name", PStr "B")] in
  let B2 := [("name", PStr "B2")] in
  let C := [("name", PStr "C")] in
  let doc := {| status := "ok"; meta_count := 3;
                data := [("1", A); ("2", PDict B2); ("3", PDict C)];
                userStr := [("KV-1", PStr "KV-1"); ("T-34", PStr "T-34")] |} in
  let members := [("canal", PStr "Canal"); ("desert", PStr "Desert Sands");
                  ("rock", PStr "Rockfield")] in
  merge_tankopedia (PDict [("1", A); ("2", B)]) prior_userStr
    [("2", B2); ("3", C)] fresh_userStrs = Ok doc /\
  merge_maps "maps.json"
    (Some (Ok (PDict [("rock", PStr "Rockfield"); ("canal", PStr "old")])))
    fresh_maps = (Ok members, []) /\
  (forall k, dict_get k (data doc) =
             match dict_get k [("2", B2); ("3", C)] with
             | Some record => Some (PDict record)
             | None => dict_get k [("1", A); ("2", B)]
             end) /\
  (forall k, dict_get k (userStr doc) =
             match dict_get k fresh_userStrs with
             | Some text => Some (PStr text)
             | None => dict_get k [("T-34", PStr "T-34")]
             end) /\
  (forall k, dict_get k members =
             match dict_get k fresh_maps with
             | Some text => Some (PStr text)
             | None =>
                 dict_get k [("rock", PStr "Rockfield"); ("canal", PStr "old")]
             end).
Proof.
  intros A B B2 C doc members.
  split; [reflexivity|]. split; [reflexivity|].
  assert (Hwf1 : forall (V : Type) (k : string) (v : V), dict_wf [(k, v)]).
  { intros V k v. unfold dict_wf. simpl. repeat constructor. intros []. }
  assert (Hwf2 : forall (V : Type) (k1 k2 : string) (v1 v2 : V),
            k1 <> k2 -> dict_wf [(k1, v1); (k2, v2)]).
  { intros V k1 k2 v1 v2 Hne. unfold dict_wf. simpl.
    repeat constructor; simpl; intuition. }
  destruct (merge_overlay [("1", A); ("2", B)] [("T-34", PStr "T-34")]
              [("rock", PStr "Rockfield"); ("canal", PStr "old")]
              [("2", B2); ("3", C)] fresh_userStrs fresh_maps
              "maps.json" doc members [])
    as [H1 [H2 [H3 _]]];
    try reflexivity;
    try (apply Hwf1); try (apply Hwf2; discriminate).
  now repeat split.
Defined.

(** * Further properties *)

(** ** The vehicle classifier *)

Lemma first_type_spec (t0 : string) (rest types : list string) :
  first_type (t0 :: rest) types =
  Ok (if existsb (String.eqb t0) types then PStr t0 else PNone).
Proof.
  induction types as [|t types IH]; [reflexivity|].
  cbn [first_type index nth_error rbind existsb].
  destruct (String.eqb_spec t0 t) as [E|Hne]; [now subst t|].
  rewrite IH. reflexivity.
Qed.

Lemma str_split_head (sep : ascii) (s : string) :
  str_split sep s = nth 0 (str_split sep s) "" :: tl (str_split sep s).
Proof.
  destruct (str_split sep s) eqn:E; [|reflexivity].
  now apply str_split_nonempty in E.
Qed.

(** X1: the classifier looks at the first space-separated token of the
    tag field only: the token itself is returned when it is one of the
    known type tags, None otherwise; it never raises on a str. *)
Theorem get_tank_type_first_token (w : WG) (tagstr : string) :
  let token := nth 0 (str_split " " tagstr) "" in
  get_tank_type (Some w) (PStr tagstr) =
  Ok (if existsb (String.eqb token) (TANK_TYPE w) then PStr token
      else PNone).
Proof.
  intros token. unfold get_tank_type. simpl.
  rewrite (str_split_head " " tagstr). fold token. apply first_type_spec.
Qed.

(** ** The identifier encoder, read backwards *)

(** X2: an id decodes: for a nation index in [0..15] the bits above the
    low byte are the raw id, bits 4-7 are the nation index and the low
    four bits are the tag 1, also for a negative raw id. *)
Theorem tank_id_decodes (w : WG) (nation : string) (nation_index raw_id id : Z) :
  dict_get nation (NATION_ID w) = Some nation_index ->
  0 <= nation_index <= 15 ->
  get_tank_id (Some w) nation raw_id = Ok id ->
  Z.shiftr id 8 = raw_id /\
  Z.land (Z.shiftr id 4) 15 = nation_index /\
  Z.land id 15 = 1.
Proof.
  intros Hn Hi H. rewrite (get_tank_id_eq w nation nation_index raw_id Hn) in H.
  assert (E : Z.shiftl raw_id 8 + Z.shiftl nation_index 4 + 1 = id)
    by congruence.
  rewrite <- E. clear E H.
  rewrite !Z.shiftl_mul_pow2 by lia.
  change (2 ^ 8) with 256. change (2 ^ 4) with 16.
  change 15 with (Z.ones 4). rewrite !Z.land_ones by lia.
  rewrite !Z.shiftr_div_pow2 by lia.
  change (2 ^ 8) with 256. change (2 ^ 4) with 16.
  repeat split.
  - symmetry. apply (Z.div_unique _ 256 raw_id (nation_index * 16 + 1)); lia.
  - assert (E : (raw_id * 256 + nation_index * 16 + 1) / 16 =
                raw_id * 16 + nation_index).
    { symmetry. apply (Z.div_unique _ 16 _ 1); lia. }
    rewrite E. symmetry.
    apply (Z.mod_unique _ 16 raw_id nation_index); lia.
  - symmetry.
    apply (Z.mod_unique _ 16 (raw_id * 16 + nation_index) 1); lia.
Qed.

Lemma tank_id_decodes_witness :
  Z.shiftr 25633 8 = 100 /\ Z.land (Z.shiftr 25633 4) 15 = 2 /\
  Z.land 25633 15 = 1.
Proof.
  apply (tank_id_decodes wg_sample "usa" 2 100 25633);
    [reflexivity | lia | reflexivity].
Defined.

(** ** More on the merge *)

Section MergeFacts.
Context {V : Type}.
Implicit Types (d other : dict V).

Lemma dict_set_same d k v : dict_get k d = Some v -> dict_set k v d = d.
Proof.
  induction d as [|[k0 v0] d IH]; simpl; [discriminate|].
  destruct (String.eqb_spec k k0) as [->|Hne].
  - now intros [= ->].
  - intros H. now rewrite IH.
Qed.

Lemma dict_update_same d other :
  (forall k v, In (k, v) other -> dict_get k d = Some v) ->
  dict_update d other = d.
Proof.
  unfold dict_update.
  induction other as [|[k v] other IH]; simpl; intros H; [reflexivity|].
  rewrite dict_set_same by (apply H; now left).
  apply IH. intros k' v' Hin. apply H. now right.
Qed.

Lemma dict_set_length d k v :
  List.length (dict_set k v d) =
  if dict_mem k d then List.length d else S (List.length d).
Proof.
  unfold dict_mem.
  induction d as [|[k0 v0] d IH]; simpl; [reflexivity|].
  destruct (String.eqb_spec k k0) as [->|Hne]; simpl; [reflexivity|].
  rewrite IH. destruct (dict_get k d); reflexivity.
Qed.

Lemma dict_mem_set d k k' v :
  k' <> k -> dict_mem k' (dict_set k v d) = dict_mem k' d.
Proof. intros Hne. unfold dict_mem. now rewrite dict_get_set_ne. Qed.

(** The keys of [other] that [d] does not have yet. *)
Lemma dict_update_length d other :
  dict_wf other ->
  List.length (dict_update d other) =
  (List.length d +
   List.length (filter (fun kv => negb (dict_mem (fst kv) d)) other))%nat.
Proof.
  unfold dict_update, dict_wf. revert d.
  induction other as [|[k v] other IH]; simpl; intros d Hwf; [lia|].
  inversion Hwf as [|? ? Hnotin Hwf']; subst.
  rewrite IH by assumption. rewrite dict_set_length.
  assert (E : filter (fun kv => negb (dict_mem (fst kv) (dict_set k v d))) other
            = filter (fun kv => negb (dict_mem (fst kv) d)) other).
  { apply filter_ext_in. intros [k' v'] Hin. simpl.
    rewrite dict_mem_set; [reflexivity|].
    intros ->. apply Hnotin. change (In (fst (k, v')) (map fst other)).
    now apply in_map. }
  rewrite E. destruct (dict_mem k d); simpl; lia.
Qed.

End MergeFacts.

(** X3: the merge is idempotent: merging the same new data a second time
    into the merged catalog leaves it as it is, entry for entry and in
    the same order. *)
Theorem merge_idempotent (prior : pyval) (new_data merged : dict pyval) :
  dict_wf new_data ->
  update_of prior new_data = Ok merged ->
  update_of (PDict merged) new_data = Ok merged.
Proof.
  intros Hwf H. destruct prior; try discriminate H. injection H as <-.
  simpl. f_equal. apply dict_update_same.
  intros k v Hin. rewrite dict_get_update by assumption.
  now rewrite (In_dict_get _ _ _ Hwf Hin).
Qed.

Lemma merge_idempotent_witness :
  update_of (PDict [("1", PStr "A"); ("3", PStr "C"); ("2", PStr "B2")])
            [("2", PStr "B2"); ("3", PStr "C")] =
  Ok [("1", PStr "A"); ("3", PStr "C"); ("2", PStr "B2")].
Proof.
  apply (merge_idempotent (PDict [("1", PStr "A"); ("3", PStr "C0")])
           [("2", PStr "B2"); ("3", PStr "C")]).
  - unfold dict_wf. simpl. repeat constructor; simpl; intuition discriminate.
  - reflexivity.
Defined.

(** X4: the count written to [meta.count] is the number of prior entries
    plus the number of new ids the prior catalog did not have; an id that
    is in both is counted once. *)
Theorem meta_count_of_merge (prior : dict pyval) (userStrs : pyval)
    (new_tanks : dict (dict pyval)) (new_userStrs : dict string)
    (doc : tankopedia_doc) :
  dict_wf new_tanks ->
  merge_tankopedia (PDict prior) userStrs new_tanks new_userStrs = Ok doc ->
  meta_count doc =
  len prior +
  len (filter (fun kv => negb (dict_mem (fst kv) prior)) new_tanks).
Proof.
  intros Hwf H. unfold merge_tankopedia in H. cbn [update_of rbind] in H.
  destruct (update_of userStrs _); [cbn [rbind] in H|discriminate H].
  destruct (sort_dict _ true); [cbn [rbind] in H|discriminate H].
  change (sort_dict a false) with
    (Ok (sorted (fun x y => String.leb (fst x) (fst y)) a)) in H.
  cbn [rbind] in H. injection H as <-. cbn [meta_count]. unfold len.
  rewrite dict_update_length by now apply dict_map_wf.
  rewrite Nat2Z.inj_add. f_equal. f_equal.
  unfold dict_map. rewrite filter_map_swap. now rewrite length_map.
Qed.

Lemma meta_count_of_merge_witness : meta_count merged_doc = 2 + 1.
Proof.
  apply (meta_count_of_merge [("513", PDict []); ("1", PDict [])]
           prior_userStr fresh_tanks fresh_userStrs merged_doc).
  - unfold dict_wf. simpl. repeat constructor; simpl; intuition discriminate.
  - reflexivity.
Defined.

(** ** More on the name resolver *)

Section ResolverMore.
Variable repr : pyval -> string.
Variable tank_strs : dict string.

(** An invariant of every turn is an invariant of the loop. *)
Lemma tank_loop_invariant (P : cstate -> Prop) (tanklist : list loc)
    (st : cstate) :
  (forall tank st, P st -> P (fst (convert_one repr tank_strs tank st))) ->
  P st -> P (fst (tank_loop repr tank_strs tanklist st)).
Proof.
  intros Hstep. revert st.
  induction tanklist as [|tank rest IH]; simpl; intros st HP; [assumption|].
  specialize (Hstep tank st HP).
  destruct (convert_one repr tank_strs tank st) as [st1 ev1].
  specialize (IH st1 Hstep).
  destruct (tank_loop repr tank_strs rest st1) as [st2 ev2]. exact IH.
Qed.

(** What a turn does, in two cases: nothing but a report, or the two
    writes. *)
Lemma convert_one_cases (tank : loc) (st : cstate) :
  let st' := fst (convert_one repr tank_strs tank st) in
  (st' = st /\ unprocessable tank_strs (heap st tank)) \/
  exists u name,
    dict_get "userStr" (heap st tank) = Some u /\
    resolve_name tank_strs u = Ok name /\
    let d := dict_pop "userStr"
               (dict_set "name" (PStr name) (heap st tank)) in
    heap st' tank = d /\
    (forall l, l <> tank -> heap st' l = heap st l) /\
    (tankopedia st' = tankopedia st \/
     exists id tank_tmp,
       dict_get "tank_id" d = Some id /\
       copy_items d (sorted_str (dict_keys d)) [] = Ok tank_tmp /\
       tankopedia st' = dict_set (str_of repr id) tank_tmp (tankopedia st)).
Proof.
  unfold convert_one, unprocessable. rewrite try_body_eq. unfold getitem.
  destruct (dict_get "userStr" (heap st tank)) as [u|] eqn:Eu;
    [|left; now split].
  destruct (resolve_name tank_strs u) as [name|e] eqn:Er; [|left; now split].
  right. exists u, name. split; [reflexivity|]. split; [exact Er|].
  cbv zeta.
  set (d := dict_pop "userStr" (dict_set "name" (PStr name) (heap st tank))).
  destruct (copy_items d (sorted_str (dict_keys d)) []) as [tmp|e] eqn:Ec.
  - destruct (dict_get "tank_id" d) as [id|] eqn:Eid; simpl;
      (split; [apply store_get_set_eq|]);
      (split; [intros l Hl; now rewrite !store_get_set_ne|]).
    + right. exists id, tmp. now repeat split.
    + now left.
  - simpl. split; [apply store_get_set_eq|].
    split; [intros l Hl; now rewrite !store_get_set_ne|]. now left.
Qed.

End ResolverMore.

Lemma Forall_dict_set {V} (P : string * V -> Prop) (d : dict V)
    (k : string) (v : V) :
  Forall P d -> P (k, v) -> Forall P (dict_set k v d).
Proof.
  intros Hd Hkv. apply Forall_forall. intros [k' v'] Hin.
  apply In_dict_set in Hin as [->|Hin]; [assumption|].
  rewrite Forall_forall in Hd. now apply Hd.
Qed.

Lemma copy_items_In {V} (d : dict V) (keys : list string) (acc tmp : dict V) :
  copy_items d keys acc = Ok tmp ->
  forall k v, In (k, v) tmp -> In (k, v) acc \/ In (k, v) d.
Proof.
  revert acc. induction keys as [|k0 keys IH]; simpl; intros acc H k v Hin.
  - injection H as <-. now left.
  - unfold getitem in H. destruct (dict_get k0 d) as [v0|] eqn:E;
      [simpl in H|discriminate H].
    destruct (IH _ H k v Hin) as [Hacc|Hd]; [|now right].
    apply In_dict_set in Hacc as [[= -> ->]|Hacc]; [|now left].
    right. now apply dict_get_In.
Qed.

(** The sort of line 209. *)
Lemma sorted_key_int_spec (l ids : list string) :
  sorted_key_int l = Ok ids ->
  Permutation l ids /\
  nondecreasing_int ids /\
  (NoDup l -> Forall canonical_key l -> increasing_int ids).
Proof.
  unfold sorted_key_int.
  destruct (mapM int_of_str l) as [zs|] eqn:Ezs; [simpl|discriminate].
  intros [= <-].
  set (le := fun a b : Z * string => Z.leb (fst a) (fst b)).
  set (ps := sorted le (combine zs l)).
  apply mapM_Forall2 in Ezs.
  assert (Hcomb : Forall (fun p => int_of_str (snd p) = Ok (fst p))
                    (combine zs l) /\ map snd (combine zs l) = l).
  { clear ps. induction Ezs as [|k z l zs Hk Hl IH]; simpl.
    - split; [constructor|reflexivity].
    - destruct IH as [H1 H2]. split; [now constructor|now rewrite H2]. }
  destruct Hcomb as [Hkeyed Hsnd].
  assert (Hperm : Permutation (combine zs l) ps) by apply sorted_perm.
  assert (Hkeyed' : Forall (fun p => int_of_str (snd p) = Ok (fst p)) ps)
    by (eapply Permutation_Forall; eassumption).
  assert (HmapM : mapM int_of_str (map snd ps) = Ok (map fst ps)).
  { apply mapM_Forall2. clear Hperm.
    induction Hkeyed' as [|p ps' Hp Hps IH]; simpl; constructor; assumption. }
  assert (Hsorted : StronglySorted Z.le (map fst ps)).
  { apply (StronglySorted_weaken (fun x y => Z.leb x y = true));
      [intros a b; apply Z.leb_le|].
    apply (StronglySorted_map fst (fun x y => Z.leb x y = true)).
    apply (sorted_sorted le).
    - intros a b. unfold le. rewrite !Z.leb_le. lia.
    - intros a b c. unfold le. rewrite !Z.leb_le. lia. }
  assert (Hpl : Permutation l (map snd ps)).
  { rewrite <- Hsnd at 1. now apply Permutation_map. }
  split; [exact Hpl|]. split.
  - exists (map fst ps). now split.
  - intros Hnd Hcan. exists (map fst ps). split; [assumption|].
    assert (Hcan' : Forall canonical_key (map snd ps))
      by (eapply Permutation_Forall; eassumption).
    assert (Heq : map snd ps = map str_of_int (map fst ps)).
    { clear Hperm HmapM Hsorted Hpl.
      induction Hkeyed' as [|p ps' Hp Hps IH]; simpl in *; [reflexivity|].
      inversion Hcan' as [|? ? [z Hz] Hc]; subst. rewrite (IH Hc). f_equal.
      rewrite Hz, int_of_str_of_int in Hp. injection Hp as <-. exact Hz. }
    assert (Hnd' : NoDup (map fst ps)).
    { apply (NoDup_map_inv str_of_int). rewrite <- Heq.
      eapply Permutation_NoDup; eassumption. }
    rewrite <- (map_id (map fst ps)).
    apply (sorted_strict (fun x => x) Z.le); [lia| |now rewrite map_id].
    exact Hsorted.
Qed.

Section ResolverOutputs.
Variable repr : pyval -> string.
Variable tank_strs : dict string.

(** The parts of a normal return. *)
Lemma convert_tank_names_Ok (tanklist : list loc) (h h' : store)
    (ts : dict (dict pyval)) (us : dict string) (ev : list event) :
  convert_tank_names repr tanklist tank_strs h = (Ok (ts, us), h', ev) ->
  let st := fst (tank_loop repr tank_strs tanklist (init_state h)) in
  exists userStrs ids,
    user_strs_loop tank_strs (dict_keys tank_strs) [] = Ok userStrs /\
    sorted_key_int (dict_keys (tankopedia st)) = Ok ids /\
    copy_items (tankopedia st) ids [] = Ok ts /\
    copy_items userStrs (sorted_str (dict_keys userStrs)) [] = Ok us /\
    h' = heap st.
Proof.
  unfold convert_tank_names. fold (init_state h).
  destruct (tank_loop repr tank_strs tanklist (init_state h)) as [st ev0].
  cbn [fst].
  destruct (user_strs_loop tank_strs (dict_keys tank_strs) [])
    as [userStrs|] eqn:E1; cbn [rbind]; [|discriminate].
  destruct (sorted_key_int (dict_keys (tankopedia st))) as [ids|] eqn:E2;
    cbn [rbind]; [|discriminate].
  destruct (copy_items (tankopedia st) ids []) as [ts'|] eqn:E3;
    cbn [rbind]; [|discriminate].
  destruct (copy_items userStrs _ []) as [us'|] eqn:E4; cbn [rbind];
    [|discriminate].
  intros [= <- <- <- <-]. exists userStrs, ids. now repeat split.
Qed.

Lemma tankopedia_wf (tanklist : list loc) (st : cstate) :
  dict_wf (tankopedia st) ->
  dict_wf (tankopedia (fst (tank_loop repr tank_strs tanklist st))).
Proof.
  apply (tank_loop_invariant repr tank_strs
           (fun st => dict_wf (tankopedia st))).
  intros tank st0 Hwf.
  destruct (convert_one_cases repr tank_strs tank st0)
    as [[-> _]|[u [name [_ [_ [_ [_ [->|[id [tmp [_ [_ ->]]]]]]]]]]]];
    try assumption.
  now apply dict_set_wf.
Qed.

Lemma tankopedia_entries (tanklist : list loc) (st : cstate) :
  (forall l, dict_wf (heap st l)) ->
  Forall (resolved_entry repr) (tankopedia st) ->
  Forall (resolved_entry repr)
    (tankopedia (fst (tank_loop repr tank_strs tanklist st))).
Proof.
  intros Hwf Hall.
  apply (tank_loop_invariant repr tank_strs
           (fun st => (forall l, dict_wf (heap st l)) /\
                      Forall (resolved_entry repr) (tankopedia st)));
    [|now split].
  clear. intros tank st [Hwf Hall]. split; [now apply convert_one_wf|].
  destruct (convert_one_cases repr tank_strs tank st)
    as [[-> _]|[u [name [_ [_ [_ [_ [->|[id [tmp [Hid [Htmp ->]]]]]]]]]]]];
    try assumption.
  apply Forall_dict_set; [assumption|].
  set (d := dict_pop "userStr" (dict_set "name" (PStr name) (heap st tank)))
    in *.
  assert (Hwfd : dict_wf d) by (apply dict_pop_wf, dict_set_wf, Hwf).
  destruct (sorted_copy d Hwfd) as [tmp' [Htmp' [Hget Hinc]]].
  rewrite Htmp in Htmp'. injection Htmp' as <-.
  unfold resolved_entry. cbn [fst snd]. rewrite !Hget. repeat split.
  - now exists id.
  - exists name. unfold d. rewrite dict_get_pop_ne by discriminate.
    apply dict_get_set_eq.
  - apply dict_get_pop_eq, dict_set_wf, Hwf.
  - exact Hinc.
Qed.

Lemma tankopedia_keys_canonical (tanklist : list loc) (st : cstate) :
  int_ids (heap st) ->
  Forall canonical_key (dict_keys (tankopedia st)) ->
  int_ids (heap (fst (tank_loop repr tank_strs tanklist st))) /\
  Forall canonical_key
    (dict_keys (tankopedia (fst (tank_loop repr tank_strs tanklist st)))).
Proof.
  intros Hids Hall.
  apply (tank_loop_invariant repr tank_strs
           (fun st => int_ids (heap st) /\
                      Forall canonical_key (dict_keys (tankopedia st))));
    [|now split].
  clear. intros tank st [Hids Hall].
  destruct (convert_one_cases repr tank_strs tank st)
    as [[-> _]|[u [name [_ [_ [Hd [Hfr Htk]]]]]]]; [now split|].
  cbv zeta in Hd.
  assert (Hids' : int_ids (heap (fst (convert_one repr tank_strs tank st)))).
  { intros l id Hl. destruct (Nat.eq_dec l tank) as [->|Hne].
    - rewrite Hd in Hl. rewrite dict_get_pop_ne in Hl by discriminate.
      rewrite dict_get_set_ne in Hl by discriminate. now apply (Hids tank).
    - rewrite Hfr in Hl by assumption. now apply (Hids l). }
  split; [exact Hids'|].
  destruct Htk as [->|[id [tmp [Hid [_ ->]]]]]; [assumption|].
  rewrite dict_keys_set. destruct (dict_mem _ _); [assumption|].
  apply Forall_app. split; [assumption|]. constructor; [|constructor].
  rewrite dict_get_pop_ne in Hid by discriminate.
  rewrite dict_get_set_ne in Hid by discriminate.
  destruct (Hids tank id Hid) as [z ->]. now exists z.
Qed.

End ResolverOutputs.

(** ** The user strings *)

Section UserStrs.
Variable tank_strs : dict string.

Lemma user_strs_loop_spec (keys : list string) (acc r : dict string) :
  user_strs_loop tank_strs keys acc = Ok r ->
  (dict_wf acc -> dict_wf r) /\
  (forall key text, In (key, text) r ->
     In (key, text) acc \/
     (skip_key re_strs key = false /\
      exists tank_str,
        In tank_str keys /\ dict_get tank_str tank_strs = Some text /\
        nth_error (str_split ":" tank_str) 1 = Some key)) /\
  (forall k, In k (dict_keys acc) -> In k (dict_keys r)) /\
  (forall tank_str key,
     In tank_str keys -> nth_error (str_split ":" tank_str) 1 = Some key ->
     skip_key re_strs key = false -> In key (dict_keys r)).
Proof.
  revert acc. induction keys as [|tank_str keys IH]; intros acc H.
  - injection H as <-. repeat split; auto. intros ? ? [].
  - cbn [user_strs_loop] in H. unfold index, getitem in H.
    destruct (nth_error (str_split ":" tank_str) 1) as [key|] eqn:Ek;
      [cbn [rbind] in H|discriminate H].
    destruct (dict_get tank_str tank_strs) as [text|] eqn:Et;
      [cbn [rbind] in H|discriminate H].
    destruct (skip_key re_strs key) eqn:Es.
    + destruct (IH _ H) as [H1 [H2 [H3 H4]]]. repeat split; auto.
      * intros k t Hin. destruct (H2 k t Hin) as [Ha|[Hs [ts [Hi Hr]]]];
          [now left|right].
        split; [assumption|]. exists ts. split; [now right|assumption].
      * intros ts k [<-|Hi] Hn Hs; [congruence|]. now apply (H4 ts).
    + destruct (IH _ H) as [H1 [H2 [H3 H4]]]. repeat split.
      * intros Hwf. now apply H1, dict_set_wf.
      * intros k t Hin. destruct (H2 k t Hin) as [Ha|[Hs [ts [Hi Hr]]]].
        -- apply In_dict_set in Ha as [[= -> ->]|Ha]; [right|now left].
           split; [assumption|]. exists tank_str. split; [now left|].
           now split.
        -- right. split; [assumption|]. exists ts.
           split; [now right|assumption].
      * intros k Hk. apply H3. rewrite dict_keys_set.
        destruct (dict_mem key acc); [assumption|].
        apply in_or_app. now left.
      * intros ts k [<-|Hi] Hn Hs; [|now apply (H4 ts)].
        assert (k = key) by congruence. subst k.
        apply H3. rewrite dict_keys_set. unfold dict_mem.
        destruct (dict_get key acc) eqn:Eg.
        -- destruct (in_dec string_dec key (dict_keys acc)) as [Hi|Hi];
             [assumption|].
           apply dict_get_None in Hi. congruence.
        -- apply in_or_app. right. now left.
Qed.

Lemma user_strs_loop_total (keys : list string) (acc : dict string) :
  (forall k, In k keys -> In k (dict_keys tank_strs) /\ has_char ":" k) ->
  exists r, user_strs_loop tank_strs keys acc = Ok r.
Proof.
  revert acc. induction keys as [|tank_str keys IH]; intros acc H.
  - now exists acc.
  - destruct (H tank_str (or_introl eq_refl)) as [Hin Hc].
    cbn [user_strs_loop]. unfold index, getitem.
    destruct (str_split_has_sep ":" tank_str Hc) as [a [b [rest ->]]].
    cbn [nth_error rbind].
    destruct (dict_get tank_str tank_strs) as [text|] eqn:Et.
    2:{ apply dict_get_None in Et. contradiction. }
    cbn [rbind].
    destruct (skip_key re_strs b); apply IH; intros k Hk; apply H; now right.
Qed.


End UserStrs.

Lemma copy_sorted_keys {V} (d tmp : dict V) (keys : list string) :
  copy_items d keys [] = Ok tmp -> NoDup keys -> dict_keys tmp = keys.
Proof.
  intros H Hnd. now rewrite (copy_items_keys d keys [] tmp H Hnd)
    by (intros k _ []).
Qed.

Lemma sorted_str_increasing (keys : list string) :
  NoDup keys -> increasing_str (sorted_str keys).
Proof.
  intros Hnd. unfold increasing_str, sorted_str.
  rewrite <- (map_id (sorted String.leb keys)).
  apply (sorted_strict (fun x => x) (fun a b => String.leb a b = true)).
  - intros a b. apply string_leb_ltb.
  - apply sorted_sorted; [apply String.leb_total|].
    intros a b c. apply string_leb_trans.
  - rewrite map_id. eapply Permutation_NoDup; [apply sorted_perm|exact Hnd].
Qed.

(** X5: what the returned user strings hold: every entry is the text of
    a vehicle string filed under the second colon-segment of its key, no
    key of it begins with [Chassis_], [Turret_] or [_], and every vehicle
    string whose second segment begins with none of these is there. *)
Theorem user_strings_filtered (repr : pyval -> string) (tanklist : list loc)
    (tank_strs : dict string) (h h' : store) (ts : dict (dict pyval))
    (us : dict string) (ev : list event) :
  convert_tank_names repr tanklist tank_strs h = (Ok (ts, us), h', ev) ->
  (forall key text, In (key, text) us ->
     String.prefix "Chassis_" key = false /\
     String.prefix "Turret_" key = false /\
     String.prefix "_" key = false /\
     exists tank_str,
       dict_get tank_str tank_strs = Some text /\
       nth_error (str_split ":" tank_str) 1 = Some key) /\
  (forall tank_str key,
     In tank_str (dict_keys tank_strs) ->
     nth_error (str_split ":" tank_str) 1 = Some key ->
     String.prefix "Chassis_" key = false ->
     String.prefix "Turret_" key = false ->
     String.prefix "_" key = false ->
     In key (dict_keys us)).
Proof.
  intros H.
  destruct (convert_tank_names_Ok repr tank_strs tanklist h h' ts us ev H)
    as [userStrs [ids [Hus [_ [_ [Hcopy _]]]]]].
  destruct (user_strs_loop_spec tank_strs _ _ _ Hus) as [Hwf [Hent [_ Hall]]].
  specialize (Hwf (NoDup_nil _)).
  assert (Hnd : NoDup (sorted_str (dict_keys userStrs))).
  { eapply Permutation_NoDup; [apply sorted_perm|exact Hwf]. }
  split.
  - intros key text Hin.
    destruct (copy_items_In _ _ _ _ Hcopy key text Hin) as [[]|Hin'].
    destruct (Hent key text Hin') as [[]|[Hs [tank_str [_ [Hg Hn]]]]].
    rewrite skip_key_prefix in Hs.
    apply orb_false_elim in Hs as [Hs H3].
    apply orb_false_elim in Hs as [H1 H2].
    repeat split; try assumption. now exists tank_str.
  - intros tank_str key Hin Hn H1 H2 H3.
    rewrite (copy_sorted_keys _ _ _ Hcopy Hnd). apply sorted_In.
    apply (Hall tank_str key Hin Hn).
    rewrite skip_key_prefix, H1, H2, H3. reflexivity.
Qed.

Lemma user_strings_filtered_witness :
  (forall key text,
     In (key, text) [("Foo", "e"); ("Something_short", "d")] ->
     String.prefix "Chassis_" key = false /\
     String.prefix "Turret_" key = false /\
     String.prefix "_" key = false /\
     exists tank_str,
       dict_get tank_str sample_tank_strs = Some text /\
       nth_error (str_split ":" tank_str) 1 = Some key) /\
  (forall tank_str key,
     In tank_str (dict_keys sample_tank_strs) ->
     nth_error (str_split ":" tank_str) 1 = Some key ->
     String.prefix "Chassis_" key = false ->
     String.prefix "Turret_" key = false ->
     String.prefix "_" key = false ->
     In key (dict_keys [("Foo", "e"); ("Something_short", "d")])).
Proof.
  apply (user_strings_filtered sample_repr [] sample_tank_strs
           (alloc []) (alloc []) [] [("Foo", "e"); ("Something_short", "d")]
           []).
  reflexivity.
Defined.

Lemma convert_tank_names_sorted (repr : pyval -> string) (tanklist : list loc)
    (tank_strs : dict string) (h h' : store) (ts : dict (dict pyval))
    (us : dict string) (ev : list event) :
  convert_tank_names repr tanklist tank_strs h = (Ok (ts, us), h', ev) ->
  increasing_str (dict_keys us) /\
  nondecreasing_int (dict_keys ts) /\
  (int_ids h -> increasing_int (dict_keys ts)).
Proof.
  intros H.
  destruct (convert_tank_names_Ok repr tank_strs tanklist h h' ts us ev H)
    as [userStrs [ids [Hus [Hids [Hts [Hcopy _]]]]]].
  destruct (user_strs_loop_spec tank_strs _ _ _ Hus) as [Hwf _].
  specialize (Hwf (NoDup_nil _)).
  assert (Hnd : NoDup (sorted_str (dict_keys userStrs))).
  { eapply Permutation_NoDup; [apply sorted_perm|exact Hwf]. }
  pose proof (tankopedia_wf repr tank_strs tanklist (init_state h)
                (NoDup_nil _)) as Hwft.
  destruct (sorted_key_int_spec _ _ Hids) as [Hperm [Hnd_int Hinc]].
  assert (Hndids : NoDup ids) by (eapply Permutation_NoDup; eassumption).
  rewrite (copy_sorted_keys _ _ _ Hcopy Hnd).
  rewrite (copy_sorted_keys _ _ _ Hts Hndids).
  split; [now apply sorted_str_increasing|]. split; [assumption|].
  intros Hint. apply Hinc; [exact Hwft|].
  apply (tankopedia_keys_canonical repr tank_strs tanklist (init_state h));
    [assumption|constructor].
Qed.

(** X6: the two mappings come back sorted: the user-string keys strictly
    increasing in code-point order, the tankopedia keys in non-decreasing
    order of their ints, strictly increasing when every ['tank_id'] in the
    store is an int. *)
Theorem converted_keys_sorted (repr : pyval -> string) (tanklist : list loc)
    (tank_strs : dict string) (h h' : store) (ts : dict (dict pyval))
    (us : dict string) (ev : list event) :
  convert_tank_names repr tanklist tank_strs h = (Ok (ts, us), h', ev) ->
  increasing_str (dict_keys us) /\
  nondecreasing_int (dict_keys ts) /\
  (int_ids h -> increasing_int (dict_keys ts)).
Proof. apply convert_tank_names_sorted. Qed.

(** X7: every record of the returned tankopedia is filed under [str] of
    its own ['tank_id'], has a ['name'], has no ['userStr'] key, and has
    its keys in increasing order. *)
Theorem converted_records_shape (repr : pyval -> string)
    (tanklist : list loc) (tank_strs : dict string) (h h' : store)
    (ts : dict (dict pyval)) (us : dict string) (ev : list event) :
  (forall l, dict_wf (h l)) ->
  convert_tank_names repr tanklist tank_strs h = (Ok (ts, us), h', ev) ->
  Forall (resolved_entry repr) ts.
Proof.
  intros Hwf H.
  destruct (convert_tank_names_Ok repr tank_strs tanklist h h' ts us ev H)
    as [userStrs [ids [_ [_ [Hts _]]]]].
  pose proof (tankopedia_entries repr tank_strs tanklist (init_state h)
                Hwf (Forall_nil _)) as Hall.
  apply Forall_forall. intros [k r] Hin.
  destruct (copy_items_In _ _ _ _ Hts k r Hin) as [[]|Hin'].
  rewrite Forall_forall in Hall. now apply Hall.
Qed.

Lemma converted_keys_sorted_witness :
  increasing_str ["Foo"; "Something_short"] /\
  nondecreasing_int ["1"; "513"] /\
  (int_ids sample_store -> increasing_int ["1"; "513"]).
Proof.
  apply (converted_keys_sorted sample_repr sample_tanklist sample_tank_strs
           sample_store
           (snd (fst (convert_tank_names sample_repr sample_tanklist
                        sample_tank_strs sample_store)))
           sample_converted sample_userStrs []).
  reflexivity.
Defined.

Lemma converted_records_shape_witness :
  Forall (resolved_entry sample_repr) sample_converted.
Proof.
  apply (converted_records_shape sample_repr sample_tanklist sample_tank_strs
           sample_store
           (snd (fst (convert_tank_names sample_repr sample_tanklist
                        sample_tank_strs sample_store)))
           sample_converted sample_userStrs []).
  - intros [|[|[|l]]]; unfold sample_store, alloc, dict_wf; simpl;
      repeat constructor; simpl; intuition discriminate.
  - reflexivity.
Defined.

Lemma mapM_total {A B} (f : A -> result B) (l : list A) :
  Forall (fun x => exists y, f x = Ok y) l -> exists ys, mapM f l = Ok ys.
Proof.
  induction 1 as [|x l [y Hy] Hl [ys IH]]; simpl; [now exists []|].
  rewrite Hy, IH. now exists (y :: ys).
Qed.

Lemma convert_tank_names_total (repr : pyval -> string) (tanklist : list loc)
    (tank_strs : dict string) (h : store) :
  (forall k, In k (dict_keys tank_strs) -> has_char ":" k) ->
  int_ids h ->
  exists ts us,
    fst (fst (convert_tank_names repr tanklist tank_strs h)) = Ok (ts, us).
Proof.
  intros Hcolon Hids. unfold convert_tank_names. fold (init_state h).
  destruct (tankopedia_keys_canonical repr tank_strs tanklist (init_state h)
              Hids (Forall_nil _)) as [_ Hcan].
  destruct (tank_loop repr tank_strs tanklist (init_state h)) as [st ev].
  cbn [fst] in Hcan.
  destruct (user_strs_loop_total tank_strs (dict_keys tank_strs) [])
    as [userStrs ->]; [intros k Hk; split; auto|].
  cbn [rbind].
  destruct (mapM_total int_of_str (dict_keys (tankopedia st))) as [zs Hzs].
  { eapply Forall_impl; [|exact Hcan]. intros k [z ->]. exists z.
    apply int_of_str_of_int. }
  destruct (sorted_key_int (dict_keys (tankopedia st))) as [ids|] eqn:Eids.
  2:{ unfold sorted_key_int in Eids. rewrite Hzs in Eids. discriminate Eids. }
  cbn [rbind].
  destruct (sorted_key_int_spec _ _ Eids) as [Hperm _].
  destruct (copy_items_spec (tankopedia st) ids []) as [ts [-> _]].
  { intros k Hk. eapply Permutation_in; [symmetry; exact Hperm|exact Hk]. }
  cbn [rbind].
  destruct (copy_items_spec userStrs (sorted_str (dict_keys userStrs)) [])
    as [us [-> _]].
  { intros k Hk. now apply sorted_In in Hk. }
  cbn [rbind fst]. now exists ts, us.
Qed.

(** X8: the conversion returns (it does not end the process) whenever
    every key of the vehicle-string table contains a colon, every
    ['tank_id'] in the store is an int, and the listed vehicles are plain
    records: their values are None, bools, strs and ints of at most 4300
    digits, so that neither the formatting of a vehicle (lines 179 and
    190) nor [str] and [int] on an id (lines 188 and 209) can raise. *)
Theorem conversion_returns (repr : pyval -> string) (tanklist : list loc)
    (tank_strs : dict string) (h : store) :
  (forall k, In k (dict_keys tank_strs) -> has_char ":" k) ->
  int_ids h ->
  (forall l, In l tanklist -> plain_record (h l) = true) ->
  exists ts us,
    fst (fst (convert_tank_names repr tanklist tank_strs h)) = Ok (ts, us).
Proof. intros Hcolon Hids _. now apply convert_tank_names_total. Qed.

Lemma conversion_returns_witness :
  exists ts us,
    fst (fst (convert_tank_names sample_repr sample_tanklist sample_tank_strs
                sample_store)) = Ok (ts, us).
Proof.
  apply (conversion_returns sample_repr sample_tanklist sample_tank_strs
           sample_store).
  - intros k Hk. unfold has_char. simpl in Hk.
    repeat (destruct Hk as [<-|Hk]; [simpl; tauto|]). destruct Hk.
  - intros [|[|[|l]]] id H; vm_compute in H; try discriminate H;
      injection H as <-; eexists; reflexivity.
  - intros l [<-|[<-|[]]]; vm_compute; reflexivity.
Defined.

(** ** A vehicle that cannot be resolved does not stop the others *)

Section ResolverEmits.
Variable repr : pyval -> string.
Variable tank_strs : dict string.

(** The turn of a vehicle whose name resolves and which has an id enters
    a record under [str] of that id. *)
Lemma convert_one_emits (tank : loc) (st : cstate) (key : string)
    (id : pyval) :
  dict_get "userStr" (heap st tank) = Some (PStr key) ->
  (dict_get key tank_strs = None -> has_char ":" key) ->
  dict_get "tank_id" (heap st tank) = Some id ->
  exists record,
    dict_get (str_of repr id)
      (tankopedia (fst (convert_one repr tank_strs tank st))) = Some record.
Proof.
  intros Hu Hcolon Hid. unfold convert_one. rewrite try_body_eq.
  unfold getitem at 1. rewrite Hu.
  rewrite (resolve_name_str tank_strs key Hcolon). cbv zeta.
  set (name := match dict_get key tank_strs with
               | Some text => text
               | None => nth 1 (str_split ":" key) ""
               end).
  set (d := dict_pop "userStr" (dict_set "name" (PStr name) (heap st tank))).
  destruct (sorted_copy_get d) as [tmp [-> _]].
  assert (Hid' : dict_get "tank_id" d = Some id).
  { unfold d. rewrite dict_get_pop_ne by discriminate.
    now rewrite dict_get_set_ne by discriminate. }
  unfold getitem. rewrite Hid'. cbn [fst tankopedia].
  exists tmp. apply dict_get_set_eq.
Qed.

(** No turn removes a key from the tankopedia. *)
Lemma tank_loop_keeps_key (tanklist : list loc) (st : cstate) (k : string) :
  (exists record, dict_get k (tankopedia st) = Some record) ->
  exists record,
    dict_get k (tankopedia (fst (tank_loop repr tank_strs tanklist st)))
    = Some record.
Proof.
  apply (tank_loop_invariant repr tank_strs
           (fun st => exists record, dict_get k (tankopedia st) = Some record)).
  clear. intros tank st [record Hk].
  destruct (convert_one_cases repr tank_strs tank st)
    as [[-> _]|[u [name [_ [_ [_ [_ [->|[id [tmp [_ [_ ->]]]]]]]]]]]];
    try (now exists record).
  rewrite dict_get_set.
  destruct (String.eqb k (str_of repr id)); [now exists tmp|now exists record].
Qed.

(** Every listed vehicle whose name resolves and which has an id has a
    record under [str] of its id when the loop is done. *)
Lemma tank_loop_emits (tanklist : list loc) (st : cstate) (tank : loc)
    (key : string) (id : pyval) :
  In tank tanklist ->
  dict_get "userStr" (heap st tank) = Some (PStr key) ->
  (dict_get key tank_strs = None -> has_char ":" key) ->
  dict_get "tank_id" (heap st tank) = Some id ->
  exists record,
    dict_get (str_of repr id)
      (tankopedia (fst (tank_loop repr tank_strs tanklist st))) = Some record.
Proof.
  intros Hin Hu Hcolon Hid. revert st Hu Hid.
  induction tanklist as [|tank0 rest IH]; [destruct Hin|].
  intros st Hu Hid. simpl.
  destruct (Nat.eq_dec tank tank0) as [<-|Hne].
  - pose proof (convert_one_emits tank st key id Hu Hcolon Hid) as He.
    destruct (convert_one repr tank_strs tank st) as [st1 ev1].
    cbn [fst] in He.
    pose proof (tank_loop_keeps_key rest st1 _ He) as Hk.
    destruct (tank_loop repr tank_strs rest st1) as [st2 ev2]. exact Hk.
  - pose proof (convert_one_frame repr tank_strs tank0 tank st Hne) as Hf.
    destruct (convert_one repr tank_strs tank0 st) as [st1 ev1].
    cbn [fst] in Hf.
    assert (Hin' : In tank rest) by (destruct Hin; [congruence|assumption]).
    rewrite <- Hf in Hu, Hid. specialize (IH Hin' st1 Hu Hid).
    destruct (tank_loop repr tank_strs rest st1) as [st2 ev2]. exact IH.
Qed.

End ResolverEmits.

(** Every listed vehicle whose name resolves and which has an id is in
    the returned tankopedia: there is a resolved record under [str] of
    its id. *)
Lemma convert_tank_names_emits (repr : pyval -> string)
    (tank_strs : dict string) (tanklist : list loc) (h h' : store)
    (ts : dict (dict pyval)) (us : dict string) (ev : list event)
    (tank : loc) (key : string) (id : pyval) :
  (forall l, dict_wf (h l)) ->
  convert_tank_names repr tanklist tank_strs h = (Ok (ts, us), h', ev) ->
  In tank tanklist ->
  dict_get "userStr" (h tank) = Some (PStr key) ->
  (dict_get key tank_strs = None -> has_char ":" key) ->
  dict_get "tank_id" (h tank) = Some id ->
  exists record,
    dict_get (str_of repr id) ts = Some record /\
    resolved_entry repr (str_of repr id, record).
Proof.
  intros Hwf H Hin Hu Hcolon Hid.
  destruct (convert_tank_names_Ok repr tank_strs tanklist h h' ts us ev H)
    as [userStrs [ids [_ [Hids [Hts _]]]]].
  destruct (tank_loop_emits repr tank_strs tanklist (init_state h) tank key id
              Hin Hu Hcolon Hid) as [record Hrec].
  pose proof (tankopedia_entries repr tank_strs tanklist (init_state h)
                Hwf (Forall_nil _)) as Hall.
  set (st := fst (tank_loop repr tank_strs tanklist (init_state h))) in *.
  destruct (sorted_key_int_spec _ _ Hids) as [Hperm _].
  destruct (copy_items_spec (tankopedia st) ids []) as [tmp [Htmp [Hget _]]].
  { intros k Hk. eapply Permutation_in; [symmetry; exact Hperm|exact Hk]. }
  rewrite Hts in Htmp. injection Htmp as <-.
  exists record. split.
  - rewrite Hget; [exact Hrec|].
    eapply Permutation_in; [exact Hperm|].
    destruct (in_dec string_dec (str_of repr id) (dict_keys (tankopedia st)))
      as [Hk|Hk]; [exact Hk|].
    apply dict_get_None in Hk. congruence.
  - rewrite Forall_forall in Hall. apply Hall. now apply dict_get_In.
Qed.

(** C6: a record whose name cannot be resolved (display key not in the
    table and without a colon) is reported and left out, and the run goes
    on.  The conversion of a list with such a record gives what the
    conversion of the list without it gives, the same store included, and
    its diagnostics are those of the shorter list with one "could not
    process" report added at the record's turn.  When every key of the
    vehicle-string table has a colon and every ['tank_id'] is an int, that
    result is a normal return, and every other listed record whose name
    resolves and which has an id is in the returned tankopedia: under
    [str] of its id there is a record with that id, a name and no display
    key.  (The vehicles are dicts of plain values, so that formatting
    them for the log cannot raise.) *)
Theorem unresolvable_record_skipped (repr : pyval -> string)
    (tank_strs : dict string) (h : store) (pre post : list loc) (bad : loc)
    (display_key : string) :
  (forall l, dict_wf (h l)) ->
  (forall l, In l (pre ++ bad :: post) -> plain_record (h l) = true) ->
  dict_get "userStr" (h bad) = Some (PStr display_key) ->
  dict_get display_key tank_strs = None ->
  ~ has_char ":" display_key ->
  let ev1 := snd (tank_loop repr tank_strs pre (init_state h)) in
  exists res h' ev2,
    convert_tank_names repr (pre ++ post) tank_strs h =
      (res, h', (ev1 ++ ev2)%list) /\
    convert_tank_names repr (pre ++ bad :: post) tank_strs h =
      (res, h', (ev1 ++ ErrorCouldNotProcess (h bad) :: ev2)%list) /\
    h' bad = h bad /\
    ((forall k, In k (dict_keys tank_strs) -> has_char ":" k) ->
     int_ids h ->
     exists ts us,
       res = Ok (ts, us) /\
       forall tank key id,
         In tank (pre ++ post) ->
         dict_get "userStr" (h tank) = Some (PStr key) ->
         (dict_get key tank_strs = None -> has_char ":" key) ->
         dict_get "tank_id" (h tank) = Some id ->
         exists record,
           dict_get (str_of repr id) ts = Some record /\
           resolved_entry repr (str_of repr id, record)).
Proof.
  intros Hwf _ Hu Hk Hno ev1.
  assert (Hemit : forall res h' ev,
            convert_tank_names repr (pre ++ post) tank_strs h = (res, h', ev) ->
            (forall k, In k (dict_keys tank_strs) -> has_char ":" k) ->
            int_ids h ->
            exists ts us,
              res = Ok (ts, us) /\
              forall tank key id,
                In tank (pre ++ post) ->
                dict_get "userStr" (h tank) = Some (PStr key) ->
                (dict_get key tank_strs = None -> has_char ":" key) ->
                dict_get "tank_id" (h tank) = Some id ->
                exists record,
                  dict_get (str_of repr id) ts = Some record /\
                  resolved_entry repr (str_of repr id, record)).
  { intros res h' ev E Hcolon Hids.
    destruct (convert_tank_names_total repr (pre ++ post) tank_strs h
                Hcolon Hids) as [ts [us Hok]].
    rewrite E in Hok. cbn [fst] in Hok. subst res.
    exists ts, us. split; [reflexivity|].
    intros tank key id. now apply (convert_tank_names_emits repr tank_strs
                                     (pre ++ post) h h' ts us ev). }
  revert Hemit. unfold convert_tank_names.
  fold (init_state h). rewrite !tank_loop_app. simpl tank_loop.
  pose proof (tank_loop_keeps_unresolvable repr tank_strs bad display_key
                pre (init_state h) Hu Hk Hno) as Hpre.
  subst ev1.
  destruct (tank_loop repr tank_strs pre (init_state h)) as [st1 ev1].
  simpl in Hpre. simpl snd.
  assert (Hu1 : dict_get "userStr" (heap st1 bad) = Some (PStr display_key))
    by (rewrite Hpre; exact Hu).
  rewrite (convert_one_unresolvable repr tank_strs bad display_key st1
             Hu1 Hk Hno).
  pose proof (tank_loop_keeps_unresolvable repr tank_strs bad display_key
                post st1 Hu1 Hk Hno) as Hpost.
  destruct (tank_loop repr tank_strs post st1) as [st2 ev2].
  simpl in Hpost. rewrite Hpre.
  destruct (rbind (user_strs_loop tank_strs (dict_keys tank_strs) []) _)
    as [r|err]; intros Hemit.
  - exists (Ok r), (heap st2), ev2. repeat split; [congruence|].
    now apply (Hemit _ _ _ eq_refl).
  - exists (Raise (SystemExit 1)), (heap st2), (ev2 ++ [Error err])%list.
    repeat split.
    + now rewrite app_assoc.
    + simpl. now rewrite <- !app_assoc.
    + congruence.
    + now apply (Hemit _ _ _ eq_refl).
Qed.

Lemma unresolvable_record_skipped_witness :
  let h := alloc [tank_KV1; tank_nocolon; tank_T34] in
  exists res h' ev2,
    convert_tank_names sample_repr ([0%nat] ++ [2%nat]) [] h =
      (res, h', ([] ++ ev2)%list) /\
    convert_tank_names sample_repr ([0%nat] ++ 1%nat :: [2%nat]) [] h =
      (res, h', ([] ++ ErrorCouldNotProcess tank_nocolon :: ev2)%list) /\
    h' 1%nat = tank_nocolon /\
    exists ts us,
      res = Ok (ts, us) /\
      exists record,
        dict_get "1" ts = Some record /\
        resolved_entry sample_repr ("1", record).
Proof.
  intros h.
  destruct (unresolvable_record_skipped sample_repr [] h [0%nat] [2%nat]
              1%nat "nocolon") as [res [h' [ev2 [H1 [H2 [H3 H4]]]]]].
  - intros [|[|[|[|l]]]]; unfold h, alloc, dict_wf; simpl;
      repeat constructor; simpl; intuition discriminate.
  - intros l [<-|[<-|[<-|[]]]]; vm_compute; reflexivity.
  - reflexivity.
  - reflexivity.
  - unfold has_char. simpl. intuition discriminate.
  - exists res, h', ev2.
    split; [exact H1|]. split; [exact H2|]. split; [exact H3|].
    destruct H4 as [ts [us [Hres Hall]]].
    + intros k [].
    + intros [|[|[|[|l]]]] id H; vm_compute in H; try discriminate H;
        injection H as <-; eexists; reflexivity.
    + exists ts, us. split; [exact Hres|].
      apply (Hall 2%nat "#tank_vehicles:T34" (PInt 1)).
      * simpl. tauto.
      * reflexivity.
      * intros _. unfold has_char. simpl. tauto.
      * reflexivity.
Defined.



(** ** Calling the name resolver again on the same vehicles *)

Section SecondCall.
Variable repr : pyval -> string.
Variable tank_strs : dict string.

Lemma convert_one_unprocessable (tank : loc) (st : cstate) :
  unprocessable tank_strs (heap st tank) ->
  convert_one repr tank_strs tank st =
  (st, [ErrorCouldNotProcess (heap st tank)]).
Proof.
  unfold unprocessable, convert_one. rewrite try_body_eq. unfold getitem.
  destruct (dict_get "userStr" (heap st tank)) as [u|]; [|reflexivity].
  destruct (resolve_name tank_strs u); [intros []|reflexivity].
Qed.

(** After its turn a vehicle is unprocessable, and it stays so. *)
Lemma convert_one_settles (tank l : loc) (st : cstate) :
  (forall l, dict_wf (heap st l)) ->
  l = tank \/ unprocessable tank_strs (heap st l) ->
  unprocessable tank_strs (heap (fst (convert_one repr tank_strs tank st)) l).
Proof.
  intros Hwf Hl.
  destruct (convert_one_cases repr tank_strs tank st)
    as [[-> Hun]|[u [name [_ [_ [Hd [Hfr _]]]]]]].
  - destruct Hl as [->|Hl]; assumption.
  - cbv zeta in Hd. destruct (Nat.eq_dec l tank) as [->|Hne].
    + rewrite Hd. unfold unprocessable.
      now rewrite dict_get_pop_eq by apply dict_set_wf, Hwf.
    + rewrite Hfr by assumption. destruct Hl; [contradiction|assumption].
Qed.

Lemma tank_loop_settles (tanklist : list loc) (st : cstate) (l : loc) :
  (forall l, dict_wf (heap st l)) ->
  In l tanklist \/ unprocessable tank_strs (heap st l) ->
  unprocessable tank_strs
    (heap (fst (tank_loop repr tank_strs tanklist st)) l).
Proof.
  revert st. induction tanklist as [|tank rest IH]; simpl; intros st Hwf Hl.
  - destruct Hl as [[]|Hl]. exact Hl.
  - pose proof (convert_one_wf repr tank_strs tank st Hwf) as Hwf1.
    pose proof (convert_one_settles tank l st Hwf) as Hs.
    destruct (convert_one repr tank_strs tank st) as [st1 ev1].
    cbn [fst] in *. specialize (IH st1 Hwf1).
    destruct (tank_loop repr tank_strs rest st1) as [st2 ev2].
    cbn [fst] in *. apply IH.
    destruct Hl as [[->|Hl]|Hl]; [right; apply Hs; now left|now left|].
    right. apply Hs. now right.
Qed.

Lemma tank_loop_unprocessable (tanklist : list loc) (st : cstate) :
  (forall l, In l tanklist -> unprocessable tank_strs (heap st l)) ->
  tank_loop repr tank_strs tanklist st =
  (st, map (fun l => ErrorCouldNotProcess (heap st l)) tanklist).
Proof.
  induction tanklist as [|tank rest IH]; simpl; intros H; [reflexivity|].
  rewrite convert_one_unprocessable by (apply H; now left).
  rewrite IH by (intros l Hl; apply H; now right). reflexivity.
Qed.

End SecondCall.

(** X10: the conversion uses its input up.  A second call on the same
    vehicle list, in the store the first call left, enters nothing in
    the tankopedia: every vehicle is reported as not processable, the
    store stays as it is, and the returned tankopedia is empty (the user
    strings are those of the first call). *)
Theorem second_conversion_is_empty (repr : pyval -> string)
    (tanklist : list loc) (tank_strs : dict string) (h h1 : store)
    (ts : dict (dict pyval)) (us : dict string) (ev : list event) :
  (forall l, dict_wf (h l)) ->
  convert_tank_names repr tanklist tank_strs h = (Ok (ts, us), h1, ev) ->
  convert_tank_names repr tanklist tank_strs h1 =
  (Ok ([], us), h1, map (fun l => ErrorCouldNotProcess (h1 l)) tanklist).
Proof.
  intros Hwf H.
  destruct (convert_tank_names_Ok repr tank_strs tanklist h h1 ts us ev H)
    as [userStrs [ids [Hus [_ [_ [Hcopy Hh1]]]]]].
  assert (Hun : forall l, In l tanklist ->
                          unprocessable tank_strs (heap (init_state h1) l)).
  { intros l Hl. cbn [heap init_state]. rewrite Hh1.
    apply tank_loop_settles; [exact Hwf|now left]. }
  unfold convert_tank_names. fold (init_state h1).
  rewrite (tank_loop_unprocessable repr tank_strs tanklist (init_state h1) Hun).
  rewrite Hus. cbn [rbind tankopedia init_state dict_keys map].
  change (sorted_key_int []) with (@Ok (list string) []).
  cbn [rbind copy_items]. rewrite Hcopy. reflexivity.
Qed.

Lemma second_conversion_is_empty_witness :
  let h1 := snd (fst (convert_tank_names sample_repr sample_tanklist
                        sample_tank_strs sample_store)) in
  convert_tank_names sample_repr sample_tanklist sample_tank_strs h1 =
  (Ok ([], sample_userStrs), h1,
   map (fun l => ErrorCouldNotProcess (h1 l)) sample_tanklist).
Proof.
  apply (second_conversion_is_empty sample_repr sample_tanklist
           sample_tank_strs sample_store
           (snd (fst (convert_tank_names sample_repr sample_tanklist
                        sample_tank_strs sample_store)))
           sample_converted sample_userStrs []).
  - intros [|[|[|l]]]; unfold sample_store, alloc, dict_wf; simpl;
      repeat constructor; simpl; intuition discriminate.
  - reflexivity.
Defined.

(** ** The per-nation extractor *)

Lemma first_type_result (tags types : list string) (ty : pyval) :
  first_type tags types = Ok ty ->
  ty = PNone \/ exists t, In t types /\ ty = PStr t.
Proof.
  induction types as [|t types IH]; simpl.
  - intros [= <-]. now left.
  - destruct (index tags 0) as [t0|]; [simpl|discriminate].
    destruct (String.eqb t0 t).
    + intros [= <-]. right. exists t. split; [now left|reflexivity].
    + intros H. destruct (IH H) as [->|[t' [Hin ->]]]; [now left|].
      right. exists t'. split; [now right|reflexivity].
Qed.

Section Extractor.
Variable parse : string -> result pyval.
Variable w : WG.

Lemma tank_of_xml_shape (nation : string) (tank_xml : pyval)
    (tank : dict pyval) :
  tank_of_xml (Some w) nation tank_xml = Ok tank -> raw_record w nation tank.
Proof.
  unfold tank_of_xml.
  destruct (subscript tank_xml "price") as [price|]; [|discriminate].
  cbn [rbind].
  destruct (subscript tank_xml "id") as [id|]; [|discriminate]. cbn [rbind].
  destruct (int_of id) as [n|]; [|discriminate]. cbn [rbind].
  unfold get_tank_id, getitem.
  destruct (dict_get nation (NATION_ID w)) as [idx|] eqn:Eidx;
    [|discriminate].
  cbn [rbind].
  destruct (subscript tank_xml "level") as [level|]; [|discriminate].
  cbn [rbind].
  destruct (int_of level) as [tier|]; [|discriminate]. cbn [rbind].
  destruct (subscript tank_xml "tags") as [tags|]; [|discriminate].
  cbn [rbind].
  destruct (get_tank_type (Some w) tags) as [ty|] eqn:Ety; [|discriminate].
  cbn [rbind].
  destruct (subscript tank_xml "userString") as [us|]; [|discriminate].
  cbn [rbind]. intros [= <-].
  unfold raw_record. repeat split; try reflexivity.
  - now exists (is_dict price).
  - exists idx, n. now split.
  - now exists tier.
  - unfold get_tank_type in Ety.
    destruct (split_of tags " ") as [l|]; [cbn [rbind] in Ety|discriminate].
    destruct (first_type_result _ _ _ Ety) as [->|[t [Hin ->]]];
      [now left|right]. now exists t.
Qed.

Lemma extract_loop_spec (nation : string) (tankList : pyval)
    (keys : list string) (acc tanks : list (dict pyval)) :
  extract_loop (Some w) nation tankList keys acc = Ok tanks ->
  Forall (raw_record w nation) acc ->
  Forall (raw_record w nation) tanks /\
  List.length tanks = (List.length acc + List.length keys)%nat.
Proof.
  revert acc. induction keys as [|data keys IH]; simpl; intros acc H Hacc.
  - injection H as <-. split; [assumption|lia].
  - destruct (subscript tankList "root") as [root|]; [|discriminate H].
    cbn [rbind] in H.
    destruct (subscript root data) as [tank_xml|]; [|discriminate H].
    cbn [rbind] in H.
    destruct (tank_of_xml (Some w) nation tank_xml) as [tank|] eqn:Et;
      [|discriminate H].
    cbn [rbind] in H.
    destruct (IH _ H) as [H1 H2].
    { apply Forall_app. split; [assumption|].
      constructor; [|constructor]. now apply tank_of_xml_shape in Et. }
    split; [assumption|]. rewrite H2, length_app. simpl. lia.
Qed.

Lemma extract_loop_fails (wg : option WG) (nation : string)
    (tankList root : pyval) (keys : list string) (acc : list (dict pyval))
    (data : string) (tank_xml : pyval) (e : exn) :
  subscript tankList "root" = Ok root ->
  In data keys -> subscript root data = Ok tank_xml ->
  tank_of_xml wg nation tank_xml = Raise e ->
  exists err, extract_loop wg nation tankList keys acc = Raise err.
Proof.
  intros Hroot Hin Hx He. revert acc.
  induction keys as [|k keys IH]; intros acc; [destruct Hin|].
  simpl. rewrite Hroot. cbn [rbind].
  destruct (String.eqb_spec k data) as [->|Hne].
  - rewrite Hx. cbn [rbind]. rewrite He. now exists e.
  - destruct (subscript root k) as [x|e0]; [cbn [rbind]|now exists e0].
    destruct (tank_of_xml wg nation x) as [t|e0]; [cbn [rbind]|now exists e0].
    apply IH. destruct Hin as [->|Hin]; [congruence|assumption].
Qed.

End Extractor.

Lemma extract_tanks_Ok (parse : string -> result pyval) (w : WG)
    (fs : filesystem) (blitz_app_base nation : string)
    (tanks : list (dict pyval)) (ev : list event) :
  extract_tanks parse (Some w) fs blitz_app_base nation =
    (Ok (Some tanks), ev) ->
  ev = [] /\
  Forall (raw_record w nation) tanks /\
  exists content tankList entries,
    open_read fs (list_xml_path fs blitz_app_base nation) = Ok (Ok content) /\
    parse content = Ok tankList /\
    subscript tankList "root" = Ok (PDict entries) /\
    List.length tanks = List.length entries.
Proof.
  unfold extract_tanks. fold (list_xml_path fs blitz_app_base nation).
  destruct (isfile fs _); cbn [negb]; [|discriminate].
  destruct (open_read fs _) as [[content|e]|e]; cbn [rbind];
    try discriminate.
  destruct (parse content) as [tankList|] eqn:Ep; cbn [rbind];
    [|discriminate].
  destruct (subscript tankList "root") as [root|] eqn:Er; cbn [rbind];
    [|discriminate].
  destruct root as [| | | |entries|]; cbn [keys_of rbind]; try discriminate.
  destruct (extract_loop (Some w) nation tankList (dict_keys entries) [])
    as [tanks'|] eqn:El; [|discriminate].
  intros [= <- <-].
  destruct (extract_loop_spec w nation tankList _ _ _ El (Forall_nil _))
    as [H1 H2].
  split; [reflexivity|]. split; [assumption|].
  exists content, tankList, entries. repeat split; try assumption.
  rewrite H2. unfold dict_keys. now rewrite length_map.
Qed.

(** X11: what the extractor returns when it returns a list: nothing was
    printed or logged, there is one record for every entry under [root]
    of the parsed file, and every record has the six keys [is_premium],
    [nation], [tank_id], [tier], [type], [userStr], the nation asked for,
    an int id encoded from that nation's index, an int tier, and a type
    that is None or one of the known type tags. *)
Theorem extracted_records (parse : string -> result pyval) (w : WG)
    (fs : filesystem) (blitz_app_base nation : string)
    (tanks : list (dict pyval)) (ev : list event) :
  extract_tanks parse (Some w) fs blitz_app_base nation =
    (Ok (Some tanks), ev) ->
  ev = [] /\
  Forall (raw_record w nation) tanks /\
  exists content tankList entries,
    open_read fs (list_xml_path fs blitz_app_base nation) = Ok (Ok content) /\
    parse content = Ok tankList /\
    subscript tankList "root" = Ok (PDict entries) /\
    List.length tanks = List.length entries.
Proof. apply extract_tanks_Ok. Qed.

Lemma extracted_records_witness :
  exists tank,
    [] = @nil event /\
    Forall (raw_record wg_sample "ussr") [tank] /\
    exists content tankList entries,
      open_read fs_ussr_only (list_xml_path fs_ussr_only "." "ussr") =
        Ok (Ok content) /\
      sample_parse content = Ok tankList /\
      subscript tankList "root" = Ok (PDict entries) /\
      List.length [tank] = List.length entries.
Proof.
  eexists.
  apply (extracted_records sample_parse wg_sample fs_ussr_only "." "ussr").
  reflexivity.
Defined.

(** X12: one bad entry loses the whole file: when the vehicle list is
    there and parses but the conversion of some entry under [root] raises
    (a field is missing or has the wrong type, an ASCII text given as a
    number is not a numeral, the nation has no index), the extractor
    reports an error and calls [sys.exit(2)]; the entries before it are
    not returned.  The entry's numbers are taken to be ASCII texts: that
    is where [int_of_str] raises exactly when [int()] does. *)
Theorem malformed_entry_is_fatal (parse : string -> result pyval)
    (wg : option WG) (fs : filesystem) (blitz_app_base nation : string)
    (content : string) (tankList : pyval) (entries : dict pyval)
    (data : string) (tank_xml : pyval) (e : exn) :
  isfile fs (list_xml_path fs blitz_app_base nation) = true ->
  open_read fs (list_xml_path fs blitz_app_base nation) = Ok (Ok content) ->
  parse content = Ok tankList ->
  subscript tankList "root" = Ok (PDict entries) ->
  dict_get data entries = Some tank_xml ->
  ascii_numbers tank_xml = true ->
  tank_of_xml wg nation tank_xml = Raise e ->
  exists err,
    extract_tanks parse wg fs blitz_app_base nation =
    (Raise (SystemExit 2), [Error err]).
Proof.
  intros Hfile Hopen Hparse Hroot Hdata _ He.
  unfold extract_tanks. fold (list_xml_path fs blitz_app_base nation).
  rewrite Hfile, Hopen. cbn [negb rbind]. rewrite Hparse. cbn [rbind].
  rewrite Hroot. cbn [rbind keys_of].
  destruct (extract_loop_fails wg nation tankList (PDict entries)
              (dict_keys entries) [] data tank_xml e Hroot) as [err ->];
    try assumption.
  - destruct (in_dec string_dec data (dict_keys entries)) as [Hi|Hi];
      [assumption|].
    apply dict_get_None in Hi. congruence.
  - unfold subscript, getitem. now rewrite Hdata.
  - now exists err.
Qed.

Lemma malformed_entry_is_fatal_witness :
  exists err,
    extract_tanks parse_broken (Some wg_sample) fs_ussr_only "." "ussr" =
    (Raise (SystemExit 2), [Error err]).
Proof.
  apply (malformed_entry_is_fatal parse_broken (Some wg_sample) fs_ussr_only
           "." "ussr" "<root>...</root>"
           (PDict [("root", PDict
              [("T-34", PDict
                  [("id", PStr "0");
                   ("userString", PStr "#ussr_vehicles:T-34");
                   ("price", PStr "1000"); ("tags", PStr "mediumTank");
                   ("level", PStr "5")]);
               ("KV-1", PDict
                  [("id", PStr "2");
                   ("userString", PStr "#ussr_vehicles:KV-1");
                   ("price", PDict [("gold", PNone)]);
                   ("tags", PStr "heavyTank")])])])
           [("T-34", PDict
               [("id", PStr "0"); ("userString", PStr "#ussr_vehicles:T-34");
                ("price", PStr "1000"); ("tags", PStr "mediumTank");
                ("level", PStr "5")]);
            ("KV-1", PDict
               [("id", PStr "2"); ("userString", PStr "#ussr_vehicles:KV-1");
                ("price", PDict [("gold", PNone)]);
                ("tags", PStr "heavyTank")])]
           "KV-1"
           (PDict
               [("id", PStr "2"); ("userString", PStr "#ussr_vehicles:KV-1");
                ("price", PDict [("gold", PNone)]);
                ("tags", PStr "heavyTank")])
           KeyError); reflexivity.
Defined.

(** ** What a match of the vehicle-string pattern captures *)

Lemma run_one (cls : ascii -> bool) (r : regex) (pos : nat) (s : string)
    (caps c : captures) :
  run (One cls :: r) pos s caps = Some c ->
  exists a s', s = String a s' /\ cls a = true /\
               run r (S pos) s' caps = Some c.
Proof.
  destruct s as [|a s]; simpl; [discriminate|].
  destruct (cls a) eqn:E; [|discriminate]. intros H. now exists a, s.
Qed.

Lemma run_chr (ch : ascii) (r : regex) (pos : nat) (s : string)
    (caps c : captures) :
  run (chr ch :: r) pos s caps = Some c ->
  exists s', s = String ch s' /\ run r (S pos) s' caps = Some c.
Proof.
  intros H. apply run_one in H as [a [s' [-> [Ha H]]]].
  apply Ascii.eqb_eq in Ha. subst a. now exists s'.
Qed.

Lemma run_bol (r : regex) (s : string) (caps : captures) :
  run (Bol :: r) 0 s caps = run r 0 s caps.
Proof. reflexivity. Qed.

Lemma run_eol (r : regex) (pos : nat) (s : string) (caps : captures) :
  run (Eol :: r) pos s caps = if at_end s then run r pos s caps else None.
Proof. reflexivity. Qed.

Lemma run_gopen (n : nat) (r : regex) (pos : nat) (s : string)
    (caps : captures) :
  run (GOpen n :: r) pos s caps = run r pos s (open_group n pos caps).
Proof. reflexivity. Qed.

Lemma run_gclose (n : nat) (r : regex) (pos : nat) (s : string)
    (caps : captures) :
  run (GClose n :: r) pos s caps = run r pos s (close_group n pos caps).
Proof. reflexivity. Qed.

Lemma run_lit_inv (p : string) (r : regex) (pos : nat) (s : string)
    (caps c : captures) :
  run (lit p ++ r)%list pos s caps = Some c ->
  exists s', s = (p ++ s')%string /\
             run r (pos + String.length p) s' caps = Some c.
Proof.
  revert pos s. induction p as [|ch p IH]; intros pos s H.
  - exists s. split; [reflexivity|]. now rewrite Nat.add_0_r.
  - cbn [lit app] in H. apply run_chr in H as [s1 [-> H]].
    apply IH in H as [s' [-> H]]. exists s'. split; [reflexivity|].
    cbn [String.length]. now rewrite Nat.add_succ_r.
Qed.

Lemma run_plus_lazy (cls : ascii -> bool) (r : regex) (pos : nat)
    (s : string) (caps c : captures) :
  run (PlusLazy cls :: r) pos s caps = Some c ->
  exists pre s', s = (pre ++ s')%string /\ pre <> EmptyString /\
                 run r (pos + String.length pre) s' caps = Some c.
Proof.
  revert pos. induction s as [|a s IH]; intros pos H; [discriminate H|].
  change (run (PlusLazy cls :: r) pos (String a s) caps) with
    (if cls a then
       match run r (S pos) s caps with
       | Some c0 => Some c0
       | None => run (PlusLazy cls :: r) (S pos) s caps
       end
     else None) in H.
  destruct (cls a); [|discriminate H].
  destruct (run r (S pos) s caps) as [c0|] eqn:E.
  - injection H as ->. exists (String a ""), s.
    split; [reflexivity|]. split; [discriminate|].
    cbn [String.length]. now rewrite Nat.add_1_r.
  - apply IH in H as [pre [s' [-> [_ H]]]]. exists (String a pre), s'.
    split; [reflexivity|]. split; [discriminate|].
    cbn [String.length]. now rewrite Nat.add_succ_r.
Qed.

Lemma run_plus_greedy (cls : ascii -> bool) (r : regex) (pos : nat)
    (s : string) (caps c : captures) :
  run (PlusGreedy cls :: r) pos s caps = Some c ->
  exists pre s', s = (pre ++ s')%string /\ pre <> EmptyString /\
                 run r (pos + String.length pre) s' caps = Some c.
Proof.
  revert pos. induction s as [|a s IH]; intros pos H; [discriminate H|].
  change (run (PlusGreedy cls :: r) pos (String a s) caps) with
    (if cls a then
       match run (PlusGreedy cls :: r) (S pos) s caps with
       | Some c0 => Some c0
       | None => run r (S pos) s caps
       end
     else None) in H.
  destruct (cls a); [|discriminate H].
  destruct (run (PlusGreedy cls :: r) (S pos) s caps) as [c0|] eqn:E.
  - injection H as ->. apply IH in E as [pre [s' [-> [_ H]]]].
    exists (String a pre), s'.
    split; [reflexivity|]. split; [discriminate|].
    cbn [String.length]. now rewrite Nat.add_succ_r.
  - exists (String a ""), s.
    split; [reflexivity|]. split; [discriminate|].
    cbn [String.length]. now rewrite Nat.add_1_r.
Qed.

Lemma string_app_assoc (a b c : string) :
  ((a ++ b) ++ c = a ++ (b ++ c))%string.
Proof. induction a as [|x a IH]; simpl; [reflexivity|now rewrite IH]. Qed.

Lemma string_length_app (a b : string) :
  String.length (a ++ b) = (String.length a + String.length b)%nat.
Proof. induction a as [|x a IH]; simpl; [reflexivity|now rewrite IH]. Qed.

Lemma substring_prefix (a b : string) :
  substring 0 (String.length a) (a ++ b) = a.
Proof.
  induction a as [|x a IH]; simpl; [now destruct b|now rewrite IH].
Qed.

Lemma substring_middle (pre a b : string) :
  substring (String.length pre) (String.length a) (pre ++ a ++ b) = a.
Proof.
  induction pre as [|x pre IH]; [exact (substring_prefix a b)|exact IH].
Qed.

Lemma has_char_app (ch : ascii) (a b : string) :
  has_char ch (a ++ b) <-> has_char ch a \/ has_char ch b.
Proof.
  unfold has_char. induction a as [|x a IH]; simpl; [tauto|].
  rewrite IH. tauto.
Qed.

(** Group 1 of a match of [p_tank]: a [#], a tag, [_vehicles:], a rest. *)
Lemma p_tank_group1 (unicode_word : ascii -> bool) (l : string)
    (m : match_obj) :
  re_match (p_tank unicode_word) l = Some m ->
  exists tag rest,
    tag <> EmptyString /\ rest <> EmptyString /\
    group m 1 = ("#" ++ tag ++ "_vehicles:" ++ rest)%string.
Proof.
  unfold re_match.
  destruct (run (p_tank unicode_word) 0 l no_captures) as [c|] eqn:H;
    [|discriminate].
  intros [= <-]. unfold p_tank in H. cbn [app] in H.
  rewrite run_bol in H.
  apply run_chr in H as [s1 [-> H]]. rewrite run_gopen in H.
  apply run_chr in H as [s2 [-> H]].
  apply run_plus_lazy in H as [tag [s3 [-> [Htag H]]]].
  apply run_lit_inv in H as [s4 [-> H]].
  apply run_plus_lazy in H as [rest [s5 [-> [Hrest H]]]].
  rewrite run_gclose in H.
  apply run_chr in H as [s6 [-> H]]. apply run_chr in H as [s7 [-> H]].
  apply run_chr in H as [s8 [-> H]]. apply run_chr in H as [s9 [-> H]].
  rewrite run_gopen in H.
  apply run_plus_greedy in H as [text [s10 [-> [_ H]]]].
  rewrite run_gclose in H. apply run_chr in H as [s11 [-> H]].
  rewrite run_eol in H.
  destruct (at_end s11); [|discriminate H]. injection H as <-.
  exists tag, rest. split; [assumption|]. split; [assumption|].
  unfold group. cbn [groups subject starts ends close_group open_group
                    assoc Nat.eqb].
  set (mid := ("#" ++ tag ++ "_vehicles:" ++ rest)%string).
  match goal with
  | |- substring _ ?n ?subj = _ =>
      replace n with (String.length mid);
      [replace subj with
         (String dquote "" ++ mid
          ++ String dquote (String ":" (String " " (String dquote
               (text ++ String dquote s11)))))%string|]
  end.
  - apply (substring_middle (String dquote "")).
  - unfold mid. cbn [append]. do 2 f_equal.
    rewrite !string_app_assoc. reflexivity.
  - unfold mid. cbn [append String.length].
    rewrite !string_length_app. cbn [String.length]. lia.
Qed.

(** ** The vehicle-string table of the reader *)

Lemma vehicle_key_colon (k : string) : vehicle_key k -> has_char ":" k.
Proof.
  intros [tag [rest [_ [_ ->]]]].
  apply has_char_app. right. apply has_char_app. right.
  apply has_char_app. left. unfold has_char. simpl. tauto.
Qed.

Lemma read_lines_vehicle_keys (unicode_word : ascii -> bool)
    (lines : list string) (tank_strs map_strs : dict string) :
  Forall vehicle_key (dict_keys tank_strs) ->
  Forall vehicle_key
    (dict_keys (fst (read_lines unicode_word lines tank_strs map_strs))).
Proof.
  revert tank_strs map_strs.
  induction lines as [|l lines IH]; intros tank_strs map_strs H;
    [exact H|].
  cbn [read_lines]. apply IH.
  destruct (re_match (p_tank unicode_word) l) as [m|] eqn:Em; [|exact H].
  rewrite dict_keys_set. destruct (dict_mem _ _); [exact H|].
  apply Forall_app. split; [exact H|]. constructor; [|constructor].
  exact (p_tank_group1 unicode_word l m Em).
Qed.

Lemma read_user_strs_vehicle_keys (unicode_word : ascii -> bool)
    (fs : filesystem) (blitz_app_base : string)
    (tank_strs map_strs : dict string) (ev : list event) :
  read_user_strs unicode_word fs blitz_app_base =
    (Ok (tank_strs, map_strs), ev) ->
  Forall vehicle_key (dict_keys tank_strs).
Proof.
  unfold read_user_strs.
  destruct (rbind _ _) as [content|]; [|discriminate].
  intros [= H _].
  pose proof (read_lines_vehicle_keys unicode_word (file_lines content)
                [] [] (Forall_nil _)) as Hk.
  now rewrite H in Hk.
Qed.

(** X13: every key the reader puts in the vehicle-string table has the
    form [#<tag>_vehicles:<rest>] with a tag and a rest that are not
    empty; so it contains a colon, and the split on [:] that the name
    resolver applies to the keys of this table finds a second segment. *)
Theorem vehicle_string_keys (unicode_word : ascii -> bool) (fs : filesystem)
    (blitz_app_base : string) (tank_strs map_strs : dict string)
    (ev : list event) :
  read_user_strs unicode_word fs blitz_app_base =
    (Ok (tank_strs, map_strs), ev) ->
  forall k, In k (dict_keys tank_strs) ->
    vehicle_key k /\ has_char ":" k /\
    exists key, index (str_split ":" k) 1 = Ok key.
Proof.
  intros H k Hk.
  pose proof (read_user_strs_vehicle_keys _ _ _ _ _ _ H) as Hall.
  rewrite Forall_forall in Hall. specialize (Hall k Hk).
  split; [assumption|]. split; [now apply vehicle_key_colon|].
  destruct (str_split_has_sep ":" k (vehicle_key_colon k Hall))
    as [a [b [rest ->]]].
  now exists b.
Qed.

Lemma vehicle_string_keys_witness :
  vehicle_key "#ussr_vehicles:T-34" /\ has_char ":" "#ussr_vehicles:T-34" /\
  exists key, index (str_split ":" "#ussr_vehicles:T-34") 1 = Ok key.
Proof.
  apply (vehicle_string_keys ascii_word fs_strings_only "."
           [("#ussr_vehicles:T-34", "T-34")] [("desert", "Desert Sands")] []
           (eq_refl : read_user_strs ascii_word fs_strings_only "." = _)
           "#ussr_vehicles:T-34").
  simpl. now left.
Defined.

(** ** From the extractor and the reader to the name resolver *)

Section Pipeline.
Variable parse : string -> result pyval.
Variable w : WG.
Variable fs : filesystem.
Variable blitz_app_base : string.

Lemma gather_tanks_results (nations : list string)
    (results : list (option (list (dict pyval)))) :
  fst (gather_tanks parse (Some w) fs blitz_app_base nations) = Ok results ->
  Forall (fun r => exists nation,
            fst (extract_tanks parse (Some w) fs blitz_app_base nation)
            = Ok r) results.
Proof.
  revert results. induction nations as [|n nations IH]; simpl; intros results H.
  - injection H as <-. constructor.
  - destruct (extract_tanks parse (Some w) fs blitz_app_base n)
      as [[r|e] ev] eqn:E; [|discriminate H].
    destruct (gather_tanks parse (Some w) fs blitz_app_base nations)
      as [[rs|e] ev']; [simpl in H|discriminate H].
    injection H as <-. constructor; [|now apply IH].
    exists n. now rewrite E.
Qed.

Lemma extend_all_In (acc tanklist : list (dict pyval))
    (results : list (option (list (dict pyval)))) (tank : dict pyval) :
  extend_all acc results = Ok tanklist -> In tank tanklist ->
  In tank acc \/ exists l, In (Some l) results /\ In tank l.
Proof.
  revert acc. induction results as [|[l|] results IH]; simpl; intros acc H Hin.
  - injection H as <-. now left.
  - destruct (IH _ H Hin) as [Ha|[l' [Hl' Ht]]].
    + apply in_app_or in Ha as [Ha|Ha]; [now left|].
      right. exists l. split; [now left|assumption].
    + right. exists l'. split; [now right|assumption].
  - discriminate H.
Qed.

(** Every vehicle [main] collects was built by the extractor for some
    nation. *)
Lemma main_tanklist_records (nations : list string)
    (tanklist : list (dict pyval)) (ev : list event) :
  main_tanklist parse (Some w) fs blitz_app_base nations = (Ok tanklist, ev) ->
  Forall (fun tank => exists nation, raw_record w nation tank) tanklist.
Proof.
  unfold main_tanklist. intros H.
  pose proof (gather_tanks_results nations) as Hg.
  destruct (gather_tanks parse (Some w) fs blitz_app_base nations)
    as [[results|e] ev0]; [|discriminate H].
  cbn [rbind fst] in *. injection H as H _.
  specialize (Hg results eq_refl). rewrite Forall_forall in Hg.
  apply Forall_forall. intros tank Hin.
  destruct (extend_all_In [] tanklist results tank H Hin)
    as [[]|[l [Hl Ht]]].
  destruct (Hg _ Hl) as [nation Hn]. exists nation.
  destruct (extract_tanks parse (Some w) fs blitz_app_base nation)
    as [r ev1] eqn:E. cbn [fst] in Hn. subst r.
  destruct (extract_tanks_Ok parse w fs blitz_app_base nation l ev1 E)
    as [_ [Hall _]].
  rewrite Forall_forall in Hall. now apply Hall.
Qed.

Lemma alloc_int_ids (tanklist : list (dict pyval)) :
  Forall (fun tank => exists nation, raw_record w nation tank) tanklist ->
  int_ids (alloc tanklist).
Proof.
  intros Hall l id Hid. unfold alloc in Hid.
  destruct (Nat.lt_ge_cases l (List.length tanklist)) as [Hlt|Hge].
  - rewrite Forall_forall in Hall.
    destruct (Hall (nth l tanklist []) (nth_In _ _ Hlt))
      as [nation [_ [_ [_ [[idx [raw [_ Ht]]] _]]]]].
    rewrite Ht in Hid. injection Hid as <-. eexists. reflexivity.
  - rewrite nth_overflow in Hid by assumption. discriminate Hid.
Qed.

End Pipeline.

(** X14: fed as [main] feeds it, the name resolver returns: when the
    vehicle lists of all nations were collected and the localization file
    was read, and the collected vehicles are plain records (a display key
    that is None or a str, ints of at most 4300 digits, so that formatting
    a vehicle cannot raise), the conversion of the collected vehicles
    does not end the process, and both mappings it returns have strictly
    increasing keys (the tankopedia by the ints of its keys, the user
    strings in code-point order). *)
Theorem pipeline_conversion_returns (unicode_word : ascii -> bool)
    (repr : pyval -> string) (parse : string -> result pyval) (w : WG)
    (fs : filesystem) (blitz_app_base : string)
    (tanklist : list (dict pyval)) (tank_strs map_strs : dict string)
    (ev1 ev2 : list event) :
  main_tanklist parse (Some w) fs blitz_app_base (NATION w) =
    (Ok tanklist, ev1) ->
  read_user_strs unicode_word fs blitz_app_base =
    (Ok (tank_strs, map_strs), ev2) ->
  Forall (fun tank => plain_record tank = true) tanklist ->
  exists ts us h' ev,
    convert_tank_names repr (seq 0 (List.length tanklist)) tank_strs
      (alloc tanklist) = (Ok (ts, us), h', ev) /\
    increasing_int (dict_keys ts) /\
    increasing_str (dict_keys us).
Proof.
  intros Hlist Hstrs _.
  pose proof (alloc_int_ids w tanklist
                (main_tanklist_records parse w fs blitz_app_base _ _ _ Hlist))
    as Hids.
  pose proof (read_user_strs_vehicle_keys _ _ _ _ _ _ Hstrs) as Hkeys.
  rewrite Forall_forall in Hkeys.
  destruct (convert_tank_names_total repr (seq 0 (List.length tanklist))
              tank_strs (alloc tanklist)) as [ts [us Hok]];
    [intros k Hk; now apply vehicle_key_colon, Hkeys|assumption|].
  destruct (convert_tank_names repr (seq 0 (List.length tanklist)) tank_strs
              (alloc tanklist)) as [[r h'] ev] eqn:E.
  cbn [fst] in Hok. subst r. exists ts, us, h', ev.
  split; [reflexivity|].
  destruct (convert_tank_names_sorted repr _ _ _ _ _ _ _ E) as [H1 [_ H3]].
  split; [now apply H3|assumption].
Qed.

Lemma pipeline_conversion_returns_witness :
  exists ts us h' ev,
    convert_tank_names sample_repr (seq 0 (List.length [tank_T34_raw]))
      [("#ussr_vehicles:T-34", "T-34")] (alloc [tank_T34_raw]) =
      (Ok (ts, us), h', ev) /\
    increasing_int (dict_keys ts) /\
    increasing_str (dict_keys us).
Proof.
  apply (pipeline_conversion_returns ascii_word sample_repr sample_parse
           wg_ussr fs_complete "." [tank_T34_raw]
           [("#ussr_vehicles:T-34", "T-34")] [("desert", "Desert Sands")]
           [] []).
  - reflexivity.
  - vm_compute. reflexivity.
  - repeat constructor.
Defined.

(** ** The catalogs without a usable prior file *)

Lemma dict_set_fresh {V} (d : dict V) (k : string) (v : V) :
  ~ In k (dict_keys d) -> dict_set k v d = (d ++ [(k, v)])%list.
Proof.
  induction d as [|[k0 v0] d IH]; simpl; intros H; [reflexivity|].
  destruct (String.eqb_spec k k0) as [->|Hne]; [tauto|].
  rewrite IH by tauto. reflexivity.
Qed.

Lemma dict_update_disjoint {V} (d other : dict V) :
  NoDup (dict_keys d ++ dict_keys other) ->
  dict_update d other = (d ++ other)%list.
Proof.
  unfold dict_update. revert d.
  induction other as [|[k v] other IH]; simpl; intros d H.
  - now rewrite app_nil_r.
  - assert (Hk : ~ In k (dict_keys d)).
    { apply NoDup_remove_2 in H. intros Hin. apply H.
      apply in_or_app. now left. }
    rewrite dict_set_fresh by assumption. rewrite IH.
    + now rewrite <- app_assoc.
    + unfold dict_keys in *. rewrite map_app. simpl.
      rewrite <- app_assoc. exact H.
Qed.

Lemma dict_update_nil {V} (other : dict V) :
  dict_wf other -> dict_update [] other = other.
Proof. intros H. now rewrite dict_update_disjoint. Qed.

(** X15: what is kept of a prior tankopedia that could not be used.
    When there is no file, or the reading of the file was reported as
    failed, the merged [data] is the new mapping, entry for entry and in
    the resolver's order, and nothing but that failure is reported.  The
    merged [userStr] is the new mapping too, with one exception: the
    [try] of lines 73-79 also covers the two member lookups, so for a
    file that parsed and has a [userStr] member but no [data] member line
    76 had taken the prior user strings when line 77 raised.  They are
    kept although the reading was reported as failed: the new strings
    are laid over them ([update] raises if the member is not an
    object). *)
Theorem merge_without_prior (file : string) (prior : prior_file)
    (new_tanks new_userStrs : dict pyval) :
  prior = None \/ snd (load_tankopedia file prior) <> [] ->
  dict_wf new_tanks -> dict_wf new_userStrs ->
  let userStrs := fst (fst (load_tankopedia file prior)) in
  let tanks := snd (fst (load_tankopedia file prior)) in
  update_of tanks new_tanks = Ok new_tanks /\
  Forall (fun e => exists err, e = ErrorReadingFile file err)
    (snd (load_tankopedia file prior)) /\
  match prior with
  | Some (Ok json_data) =>
      match subscript json_data "userStr" with
      | Ok (PDict old) =>
          exists merged,
            update_of userStrs new_userStrs = Ok merged /\
            forall k, dict_get k merged =
                      match dict_get k new_userStrs with
                      | Some text => Some text
                      | None => dict_get k old
                      end
      | Ok _ => update_of userStrs new_userStrs = Raise AttributeError
      | Raise _ => update_of userStrs new_userStrs = Ok new_userStrs
      end
  | _ => update_of userStrs new_userStrs = Ok new_userStrs
  end.
Proof.
  intros Hprior Ht Hu. cbv zeta.
  destruct prior as [[json_data|err]|]; cbn [load_tankopedia].
  - destruct (subscript json_data "userStr") as [kept|e1] eqn:E1.
    + destruct (subscript json_data "data") as [tanks|e2] eqn:E2.
      * destruct Hprior as [H|H]; [discriminate H|].
        cbn [load_tankopedia] in H. rewrite E1, E2 in H. now contradiction H.
      * cbn [fst snd update_of]. rewrite dict_update_nil by assumption.
        split; [reflexivity|]. split; [repeat constructor; now exists e2|].
        destruct kept; try reflexivity.
        eexists. split; [reflexivity|]. intros k.
        rewrite dict_get_update by assumption.
        now destruct (dict_get k new_userStrs).
    + cbn [fst snd update_of]. rewrite !dict_update_nil by assumption.
      split; [reflexivity|]. split; [repeat constructor; now exists e1|].
      reflexivity.
  - cbn [fst snd update_of]. rewrite !dict_update_nil by assumption.
    split; [reflexivity|]. split; [repeat constructor; now exists err|].
    reflexivity.
  - cbn [fst snd update_of]. rewrite !dict_update_nil by assumption.
    split; [reflexivity|]. split; [constructor|reflexivity].
Qed.

Lemma merge_without_prior_witness :
  let prior := Some (Ok (PDict [("userStr", PDict [("Old", PStr "old")])])) in
  update_of (snd (fst (load_tankopedia "tanks.json" prior)))
    [("513", PDict []); ("1", PDict [])] =
    Ok [("513", PDict []); ("1", PDict [])] /\
  Forall (fun e => exists err, e = ErrorReadingFile "tanks.json" err)
    (snd (load_tankopedia "tanks.json" prior)) /\
  exists merged,
    update_of (fst (fst (load_tankopedia "tanks.json" prior)))
      [("T-34", PStr "T-34")] = Ok merged /\
    forall k, dict_get k merged =
              match dict_get k [("T-34", PStr "T-34")] with
              | Some text => Some text
              | None => dict_get k [("Old", PStr "old")]
              end.
Proof.
  apply (merge_without_prior "tanks.json"
           (Some (Ok (PDict [("userStr", PDict [("Old", PStr "old")])])))
           [("513", PDict []); ("1", PDict [])] [("T-34", PStr "T-34")]).
  - right. discriminate.
  - unfold dict_wf. simpl. repeat constructor; simpl; intuition discriminate.
  - unfold dict_wf. simpl. repeat constructor; simpl; intuition discriminate.
Defined.



(** ** Lines the reader does not use, records without an id *)

(** X17: a line that matches neither pattern changes nothing: the tables
    read from a sequence of lines with such a line in it are the tables
    read from the sequence without it. *)
Theorem unmatched_line_is_skipped (unicode_word : ascii -> bool)
    (before after : list string) (l : string)
    (tank_strs map_strs : dict string) :
  re_match (p_tank unicode_word) l = None ->
  re_match p_map l = None ->
  read_lines unicode_word (before ++ l :: after) tank_strs map_strs =
  read_lines unicode_word (before ++ after) tank_strs map_strs.
Proof.
  intros Ht Hm. revert tank_strs map_strs.
  induction before as [|l0 before IH]; intros tank_strs map_strs.
  - cbn [app read_lines]. now rewrite Ht, Hm.
  - cbn [app read_lines]. apply IH.
Qed.

Lemma unmatched_line_is_skipped_witness :
  read_lines ascii_word
    ([yaml_line "#maps:desert:name" "Desert Sands"]
     ++ "# a comment" :: [yaml_line "#ussr_vehicles:T-34" "T-34"]) [] [] =
  read_lines ascii_word
    ([yaml_line "#maps:desert:name" "Desert Sands"]
     ++ [yaml_line "#ussr_vehicles:T-34" "T-34"]) [] [].
Proof.
  apply (unmatched_line_is_skipped ascii_word
           [yaml_line "#maps:desert:name" "Desert Sands"]
           [yaml_line "#ussr_vehicles:T-34" "T-34"] "# a comment" [] []);
    reflexivity.
Defined.



(** ** What the maps file holds *)

(** X19: the maps file as written: a key of the new map strings has its
    new text, any other key has the value the prior file gave it, and
    the number of members is the number of prior members plus the number
    of new keys the prior file did not have; sorting the members for the
    output loses and adds nothing. *)
Theorem maps_file_contents (file : string) (prior : dict pyval)
    (map_strs : dict string) (members : dict pyval) (ev : list event) :
  dict_wf prior -> dict_wf map_strs ->
  merge_maps file (Some (Ok (PDict prior))) map_strs = (Ok members, ev) ->
  (forall k,
     dict_get k members =
     match dict_get k map_strs with
     | Some text => Some (PStr text)
     | None => dict_get k prior
     end) /\
  len members =
    len prior + len (filter (fun kv => negb (dict_mem (fst kv) prior)) map_strs)
  /\ ev = [].
Proof.
  intros Hp Hm H. unfold merge_maps in H. cbn [update_of rbind] in H.
  unfold dumps_members in H. injection H as <- <-.
  set (merged := dict_update prior (dict_map PStr map_strs)).
  assert (Hperm : Permutation merged
            (sorted (fun a b => String.leb (fst a) (fst b)) merged))
    by apply sorted_perm.
  split; [|split; [|reflexivity]].
  - intros k. rewrite (perm_dict_get _ _ k Hperm)
      by now apply dict_update_wf.
    unfold merged. rewrite dict_get_update by now apply dict_map_wf.
    rewrite dict_get_map. now destruct (dict_get k map_strs).
  - unfold len. rewrite <- (Permutation_length Hperm).
    unfold merged. rewrite dict_update_length by now apply dict_map_wf.
    rewrite Nat2Z.inj_add. f_equal. f_equal.
    unfold dict_map. rewrite filter_map_swap. now rewrite length_map.
Qed.

Lemma maps_file_contents_witness :
  (forall k,
     dict_get k [("canal", PStr "Canal"); ("desert", PStr "Desert Sands");
                 ("rock", PStr "Rockfield")] =
     match dict_get k fresh_maps with
     | Some text => Some (PStr text)
     | None => dict_get k [("rock", PStr "Rockfield"); ("canal", PStr "old")]
     end) /\
  len [("canal", PStr "Canal"); ("desert", PStr "Desert Sands");
       ("rock", PStr "Rockfield")] =
    len [("rock", PStr "Rockfield"); ("canal", PStr "old")] +
    len (filter (fun kv => negb (dict_mem (fst kv)
                   [("rock", PStr "Rockfield"); ("canal", PStr "old")]))
           fresh_maps)
  /\ @nil event = [].
Proof.
  apply (maps_file_contents "maps.json"
           [("rock", PStr "Rockfield"); ("canal", PStr "old")] fresh_maps).
  - unfold dict_wf. simpl. repeat constructor; simpl; intuition discriminate.
  - unfold dict_wf. simpl. repeat constructor; simpl; intuition discriminate.
  - reflexivity.
Defined.

(** ** What has been printed when a task ends the gather *)

Lemma started_prints_In (parse : string -> result pyval) (wg : option WG)
    (fs : filesystem) (blitz_app_base : string) (nations : list string)
    (nation : string) :
  In nation nations ->
  isfile fs (list_xml_path fs blitz_app_base nation) = false ->
  In (Printed ("ERROR: cannot open " ++
               list_xml_path fs blitz_app_base nation))
     (started_prints parse wg fs blitz_app_base nations).
Proof.
  intros Hin Hfile. unfold started_prints. apply in_flat_map.
  exists nation. split; [exact Hin|].
  rewrite (extract_tanks_missing_file parse wg fs blitz_app_base nation Hfile).
  now left.
Qed.

(** X20: when one of the per-nation tasks ends the gather (by [sys.exit]
    or by an exception), every nation without a vehicle list has had
    its "cannot open" line printed by then, also a nation that comes
    after the failing one in [wg.NATION]: the tasks were all started
    before any of them read a file. *)
Theorem aborted_gather_prints (parse : string -> result pyval)
    (wg : option WG) (fs : filesystem) (blitz_app_base : string)
    (nations : list string) (e : exn) (nation : string) :
  fst (gather_tanks parse wg fs blitz_app_base nations) = Raise e ->
  In nation nations ->
  isfile fs (list_xml_path fs blitz_app_base nation) = false ->
  In (Printed ("ERROR: cannot open " ++
               list_xml_path fs blitz_app_base nation))
     (snd (gather_tanks parse wg fs blitz_app_base nations)).
Proof.
  intros Hraise Hin Hfile.
  induction nations as [|n rest IH]; [destruct Hin|].
  simpl in *.
  destruct (extract_tanks parse wg fs blitz_app_base n) as [[r|e0] ev] eqn:E.
  - destruct (gather_tanks parse wg fs blitz_app_base rest) as [[rs|e1] ev'];
      [discriminate Hraise|].
    cbn [snd]. apply in_or_app. destruct Hin as [->|Hin].
    + left.
      rewrite (extract_tanks_missing_file parse wg fs blitz_app_base nation
                 Hfile) in E.
      injection E as _ <-. now left.
    + right. now apply IH.
  - cbn [snd]. apply in_or_app. destruct Hin as [->|Hin].
    + rewrite (extract_tanks_missing_file parse wg fs blitz_app_base nation
                 Hfile) in E.
      discriminate E.
    + left. now apply started_prints_In.
Qed.

Lemma aborted_gather_prints_witness :
  gather_tanks parse_broken (Some wg_sample) fs_ussr_only "."
    (NATION wg_sample) =
    (Raise (SystemExit 2),
     [Printed
        "ERROR: cannot open ./Data/XML/item_defs/vehicles/germany/list.xml";
      Printed
        "ERROR: cannot open ./Data/XML/item_defs/vehicles/usa/list.xml";
      Error KeyError]) /\
  In (Printed
        "ERROR: cannot open ./Data/XML/item_defs/vehicles/usa/list.xml")
     (snd (gather_tanks parse_broken (Some wg_sample) fs_ussr_only "."
             (NATION wg_sample))).
Proof.
  split; [reflexivity|].
  apply (aborted_gather_prints parse_broken (Some wg_sample) fs_ussr_only "."
           (NATION wg_sample) (SystemExit 2) "usa").
  - reflexivity.
  - simpl. tauto.
  - reflexivity.
Defined.
